(** * pavilion: the [cancel] command

    A shallow embedding of [CancelCommand.run]
    (lib/pavilion/plugins/commands/cancel.py) together with the part of the
    working directory it reads and writes, and the properties of the
    cancellation protocol that follow from the code. *)

From Stdlib Require Import ZArith Ascii String.
From stdpp Require Import gmap strings list fin_maps pretty.

Local Open Scope string_scope.
Local Open Scope Z_scope.
Local Open Scope list_scope.

(** ** Status files *)

(** Modelled from the spec: the closed enumeration of canonical run states
    ([pavilion.status_file.STATES] is imported by cancel.py, its module is
    not part of the sources at hand). *)
Module STATES.
Inductive t : Set :=
| CREATED | SCHEDULED | RUNNING | COMPLETE | CANCELLED | ERROR.

#[global] Instance eq_dec : EqDecision t.
Proof. solve_decision. Defined.

(** Terminal states are sinks. *)
Definition terminal (s : t) : bool :=
  match s with
  | COMPLETE | CANCELLED | ERROR => true
  | CREATED | SCHEDULED | RUNNING => false
  end.
End STATES.

(** [StatusInfo]: what [status.current()] yields and what a scheduler's
    [cancel_job] answers; cancel.py reads its [.state] and [.note]. *)
Record StatusInfo : Set := mkStatus {
  state : STATES.t;
  note : string
}.

#[global] Instance StatusInfo_eq_dec : EqDecision StatusInfo.
Proof. solve_decision. Defined.

(** Modelled from the spec: the status ledger of a run ([test.status], module
    pavilion.status_file): an append-only sequence that holds at least its
    creation entry.  The wall-clock stamp of an entry is left out. *)
Record StatusFile : Set := mkLedger {
  creation : StatusInfo;
  appended : list StatusInfo
}.

Definition entries (l : StatusFile) : list StatusInfo :=
  creation l :: appended l.

(** [status.current()]: the last entry. *)
Definition current (l : StatusFile) : StatusInfo :=
  List.last (appended l) (creation l).

(** Modelled from the spec: [status.set(state, note)].  A ledger in a
    terminal state refuses any other state ([None] stands for the
    [InvalidTransition] fault) and is left as it is by a re-assertion of its
    own state; otherwise one entry is added at the end. *)
Definition status_set (l : StatusFile) (s : STATES.t) (n : string)
  : option StatusFile :=
  if STATES.terminal (state (current l)) then
    if decide (s = state (current l)) then Some l else None
  else Some (mkLedger (creation l) (appended l ++ [mkStatus s n])).

(** ** The working directory and its surroundings *)

(** Modelled from the spec: one directory [test_runs/<run>/] of the working
    directory, with the owner reported by [stat()], the [RUN_COMPLETE]
    marker file, the name of the scheduler that owns the job, and the status
    ledger. *)
Record RunDir : Set := mkRunDir {
  st_uid : Z;
  RUN_COMPLETE : bool;
  scheduler : string;
  status : StatusFile
}.

(** [test.set_run_complete()] writes the marker file. *)
Definition set_run_complete (d : RunDir) : RunDir :=
  mkRunDir (st_uid d) true (scheduler d) (status d).

Definition with_status (d : RunDir) (l : StatusFile) : RunDir :=
  mkRunDir (st_uid d) (RUN_COMPLETE d) (scheduler d) l.

(** Modelled from the spec: a record [series/<sid>/]: the member run ids in
    submission order ([TestSeries.from_id(..).tests]) and the process group
    of the series leader when one was recorded ([TestSeries.get_pgid]). *)
Record SeriesRec : Set := mkSeries {
  tests : list Z;
  pgid : option Z
}.

(** A scheduler plugin as cancel.py uses it: [sched.cancel_job(test)], given
    the run id and the loaded run, answers a [StatusInfo]. *)
Record SchedulerPlugin : Type := mkPlugin {
  cancel_job : Z → RunDir → StatusInfo
}.

(** What [os.killpg(pgid, SIGTERM)] can do: deliver the signal, or raise
    [ProcessLookupError] (no process is left in the group),
    [PermissionError] (the group is not the caller's to signal), [OSError]
    with [EINVAL] (a negative group id), or [OverflowError] (a group id that
    does not fit the C type of the system call). *)
Inductive KillResult : Set :=
| Delivered | NoSuchProcess | NotPermitted | InvalidArgument | OutOfRange.

(** What [run] reads and writes.  The answer of [os.killpg] for a group is
    taken as it is when the call begins: what a delivered signal does to
    the group afterwards is not part of the model. *)
Record World : Type := mkWorld {
  euid : Z;                               (* os.geteuid() *)
  test_runs : gmap string RunDir;         (* working_dir/'test_runs' *)
  series_dir : gmap Z SeriesRec;          (* working_dir/'series' *)
  user_series : gmap Z string;            (* per-user latest-series pointer *)
  plugins : gmap string SchedulerPlugin;  (* the scheduler registry *)
  os_killpg : Z → KillResult;
  signalled : list Z;                     (* groups that were sent SIGTERM *)
  cancelled_jobs : list Z                 (* runs handed to cancel_job *)
}.

Definition set_test_runs (w : World) (m : gmap string RunDir) : World :=
  mkWorld (euid w) m (series_dir w) (user_series w) (plugins w)
          (os_killpg w) (signalled w) (cancelled_jobs w).

Definition log_signal (w : World) (p : Z) : World :=
  mkWorld (euid w) (test_runs w) (series_dir w) (user_series w) (plugins w)
          (os_killpg w) (signalled w ++ [p]) (cancelled_jobs w).

Definition log_cancel_job (w : World) (n : Z) : World :=
  mkWorld (euid w) (test_runs w) (series_dir w) (user_series w) (plugins w)
          (os_killpg w) (signalled w) (cancelled_jobs w ++ [n]).

(** ** Output and control *)

(** The lines [run] prints, one constructor per [output.fprint] call, and the
    table of [print_from_tests]. *)
Inductive Msg : Set :=
| SeriesNotFound (test_id : string)
| SeriesNotValid (test_id : string)
| KilledProcess (series_pgid : Z) (test_id : string)
| UnableToKill (test_id : string) (series_pgid : Z)
| TestNotValid (test_id : string)
| TestCancelled (test_id : Z)
| TestNotCancellable (test_id : Z) (st : STATES.t)
| TestNotFound (test_id : Z)
| StatusTable (json : bool) (rows : list (Z * option StatusInfo)).

Inductive Sink : Set := outfile | errfile.

Definition sink (m : Msg) : Sink :=
  match m with
  | SeriesNotFound _ | SeriesNotValid _ | UnableToKill _ _
  | TestNotValid _ | TestNotFound _ => errfile
  | KilledProcess _ _ | TestCancelled _ | TestNotCancellable _ _
  | StatusTable _ _ => outfile
  end.

(** Exceptions that [run] has no handler for. *)
Inductive Exn : Set :=
| PermissionError | OSError | OverflowError
| SchedulerPluginError | InvalidTransition.

(** The exception of [os.killpg] that the handler of line 100 does not
    catch, if the call raises one. *)
Definition kill_fault (r : KillResult) : option Exn :=
  match r with
  | Delivered | NoSuchProcess => None
  | NotPermitted => Some PermissionError
  | InvalidArgument => Some OSError
  | OutOfRange => Some OverflowError
  end.

(** How a call of [run] ends: a [return] with its value, or an exception that
    leaves the function. *)
Inductive Exit : Set :=
| Return (code : Z)
| Raise (e : Exn).

Definition EINVAL : Z := 22.

(** The state a command threads: the world and what was printed so far.
    Effects stay done when the command leaves early. *)
Definition Proc : Type := World * list Msg.

Definition Cmd (A : Type) : Type := Proc → Proc * (Exit + A).

#[global] Instance Cmd_ret : MRet Cmd := λ A x s, (s, inr x).

#[global] Instance Cmd_bind : MBind Cmd := λ A B f c s,
  match c s with
  | (s', inl e) => (s', inl e)
  | (s', inr x) => f x s'
  end.

Definition leave {A} (e : Exit) : Cmd A := λ s, (s, inl e).

Definition get_world : Cmd World := λ s, (s, inr s.1).

Definition modify_world (f : World → World) : Cmd unit :=
  λ s, ((f s.1, s.2), inr tt).

Definition fprint (m : Msg) : Cmd unit :=
  λ s, ((s.1, s.2 ++ [m]), inr tt).

(** A [for] loop that threads an accumulator and stops at the first exit. *)
Fixpoint for_each {A B} (body : A → B → Cmd B) (xs : list A) (acc : B)
  : Cmd B :=
  match xs with
  | [] => mret acc
  | x :: xs' => acc' ← body x acc; for_each body xs' acc'
  end.

(** ** Sample inputs

    A digit-string reading of [int] and the plain decimal directory names,
    and a small working directory, for the concrete runs further down. *)

Fixpoint digits (s : string) (acc : Z) : option Z :=
  match s with
  | EmptyString => Some acc
  | String c s' =>
      let k := Z.of_N (Ascii.N_of_ascii c) - 48 in
      if decide (0 ≤ k ≤ 9) then digits s' (10 * acc + k) else None
  end.

(** [int] on the strings used below: a non-empty string of ASCII digits is
    its decimal value, a string with any other character is refused. *)
Definition dec_int (s : string) : option Z :=
  match s with
  | EmptyString => None
  | _ => digits s 0
  end.

Definition dec_path (n : Z) : string := pretty n.

Definition cancelled_by_user : StatusInfo :=
  mkStatus STATES.CANCELLED "terminated by user".

Definition slurm : SchedulerPlugin := mkPlugin (λ _ _, cancelled_by_user).

Definition created : StatusInfo := mkStatus STATES.CREATED "".

Definition dir_in (owner : Z) (marker : bool) (s : STATES.t) : RunDir :=
  mkRunDir owner marker "slurm" (mkLedger created [mkStatus s ""]).

Definition run7 : RunDir := mkRunDir 1000 false "slurm" (mkLedger created []).
Definition run10 : RunDir := dir_in 1000 false STATES.RUNNING.
Definition run11 : RunDir := dir_in 1000 true STATES.COMPLETE.
Definition run12 : RunDir := dir_in 1000 false STATES.SCHEDULED.
Definition run13 : RunDir := dir_in 2000 false STATES.RUNNING.
Definition run42 : RunDir := dir_in 1000 false STATES.RUNNING.

(** User 1000 with six run directories (13 belongs to user 2000) and four
    series: s6 with 0 as its process group, s7 whose process group 4321 is
    gone, s8 without a process group, and s9 whose process group 555 is
    alive. *)
Definition site : World :=
  mkWorld 1000
    {[ "7" := run7; "10" := run10; "11" := run11; "12" := run12;
       "13" := run13; "42" := run42 ]}
    {[ 6 := mkSeries [10] (Some 0);
       7 := mkSeries [10; 11; 12] (Some 4321);
       8 := mkSeries [42; 7] None;
       9 := mkSeries [12] (Some 555) ]}
    {[ 1000 := "s8" ]}
    {[ "slurm" := slurm ]}
    (λ p, if decide (p = 4321) then NoSuchProcess else Delivered)
    [] [].

(** The same directory before user 1000 submitted any series. *)
Definition site_without_series : World :=
  mkWorld 1000 (test_runs site) (series_dir site) ∅ (plugins site)
          (os_killpg site) [] [].

(** The same directory seen by a user who may not signal the process group
    555 of series s9. *)
Definition guarded_site : World :=
  mkWorld 1000 (test_runs site) (series_dir site) (user_series site)
          (plugins site)
          (λ p, if decide (p = 555) then NotPermitted else os_killpg site p)
          [] [].

(** The same directory on a host where no scheduler is registered. *)
Definition site_without_schedulers : World :=
  mkWorld 1000 (test_runs site) (series_dir site) (user_series site) ∅
          (os_killpg site) [] [].

(** * pavilion.config *)

(** A path is kept as the text pathlib prints for it; pathlib normalises a
    path when it is built, so two paths are equal when their texts are. *)
Definition Path : Set := string.

(** What [Path.exists()] and [Path.is_file()] can answer: true, false, or a
    [PermissionError] (pathlib swallows the errors of a missing file and
    lets the others through). *)
Inductive Probe : Set := Yes | No | Denied.

(** What [find_pavilion_config] needs of the machine: the file probe, the
    [/] of pathlib, and [PavilionConfigLoader().load(path.open())] ([None]
    stands for any exception of opening or loading) and [load_empty()]. *)
Record Loader (Cfg : Type) : Type := mkLoader {
  is_file : Path → Probe;
  joinpath : Path → string → Path;
  load : Path → option Cfg;
  load_empty : Cfg
}.
Arguments is_file {Cfg}.
Arguments joinpath {Cfg}.
Arguments load {Cfg}.
Arguments load_empty {Cfg}.

Definition PAV_CONFIG_NAME : string := "pavilion.yaml".
Definition CONFIG_NAME : string := "config.yaml".

(** How [find_pavilion_config] ends: with the config of a file, whose
    [pav_cfg_file] is set to that file; with the empty config, after a
    warning if [warn] is set; with the [RuntimeError] about a file; or with
    the [PermissionError] of a probe. *)
Inductive Found (Cfg : Type) : Type :=
| FromFile (cfg : Cfg) (pav_cfg_file : Path)
| Defaults (cfg : Cfg) (warned : bool)
| ConfigError (file : Path)
| ProbeDenied.
Arguments FromFile {Cfg}.
Arguments Defaults {Cfg}.
Arguments ConfigError {Cfg}.
Arguments ProbeDenied {Cfg}.

(** Lines 388-395 and 401-410: load a file that was found. *)
Definition load_found {Cfg} (h : Loader Cfg) (path : Path) : Found Cfg :=
  match load h path with
  | Some cfg => FromFile cfg path
  | None => ConfigError path
  end.

(** Lines 383-395: [for path in target, PAV_CONFIG_FILE]. *)
Fixpoint find_given {Cfg} (h : Loader Cfg) (paths : list (option Path))
  : option (Found Cfg) :=
  match paths with
  | [] => None
  | None :: rest => find_given h rest
  | Some pav_cfg_file :: rest =>
      match is_file h pav_cfg_file with
      | Yes => Some (load_found h pav_cfg_file)
      | No => find_given h rest
      | Denied => Some ProbeDenied
      end
  end.

(** Lines 398-410: [for config_dir in PAV_CONFIG_SEARCH_DIRS]. *)
Fixpoint find_in_dirs {Cfg} (h : Loader Cfg) (dirs : list Path)
  : option (Found Cfg) :=
  match dirs with
  | [] => None
  | config_dir :: rest =>
      let path := joinpath h config_dir PAV_CONFIG_NAME in
      match is_file h path with
      | Yes => Some (load_found h path)
      | No => find_in_dirs h rest
      | Denied => Some ProbeDenied
      end
  end.

(** [find_pavilion_config(target, warn)], given the module constants
    [PAV_CONFIG_FILE] and [PAV_CONFIG_SEARCH_DIRS]. *)
Definition find_pavilion_config {Cfg} (h : Loader Cfg)
    (PAV_CONFIG_FILE : option Path) (PAV_CONFIG_SEARCH_DIRS : list Path)
    (target : option Path) (warn : bool) : Found Cfg :=
  match find_given h [target; PAV_CONFIG_FILE] with
  | Some r => r
  | None =>
      match find_in_dirs h PAV_CONFIG_SEARCH_DIRS with
      | Some r => r
      | None => Defaults (load_empty h) warn
      end
  end.

(** The files [find_pavilion_config] looks at, in the order it does. *)
Definition candidates {Cfg} (h : Loader Cfg)
    (PAV_CONFIG_FILE : option Path) (PAV_CONFIG_SEARCH_DIRS : list Path)
    (target : option Path) : list Path :=
  omap id [target; PAV_CONFIG_FILE]
  ++ ((λ d, joinpath h d PAV_CONFIG_NAME) <$> PAV_CONFIG_SEARCH_DIRS).

(** One pass over the candidates: the first that is a file is loaded, and a
    probe that is refused ends the search. *)
Fixpoint scan {Cfg} (h : Loader Cfg) (files : list Path)
  : option (Found Cfg) :=
  match files with
  | [] => None
  | path :: rest =>
      match is_file h path with
      | Yes => Some (load_found h path)
      | No => scan h rest
      | Denied => Some ProbeDenied
      end
  end.

(** ** [config_dirs_validator] *)

(** What the validator needs of the machine: [Path.exists()] and
    [Path.resolve()]. *)
Record Disk : Set := mkDisk {
  path_exists : Path → Probe;
  resolve : Path → Path
}.

(** The two warnings of the validator, and the ways it is left by an
    exception: the [PermissionError] of a probe outside the [try], and the
    error [list(path.iterdir())] raises for a path that does not exist. *)
Inductive DirsMsg : Set :=
| DoesNotExist (value : Path)
| CannotAccess.

Inductive DirsExn : Set :=
| DirsPermissionError
| NoSuchDirectory (path : Path).

(** Lines 80-84: the directories put first. *)
Definition first_dirs (disk : Disk) (USER_HOME_PAV : Path)
    (PAV_CONFIG_DIR : option Path) (user_config : bool)
  : DirsExn + list Path :=
  match (if user_config then path_exists disk USER_HOME_PAV else No) with
  | Denied => inl DirsPermissionError
  | home =>
      let config_dirs :=
        match home with
        | Yes => [resolve disk USER_HOME_PAV]
        | _ => []
        end in
      match PAV_CONFIG_DIR with
      | None => inr config_dirs
      | Some dir =>
          match path_exists disk dir with
          | Yes => inr (config_dirs ++ [resolve disk dir])
          | No => inr config_dirs
          | Denied => inl DirsPermissionError
          end
      end
  end.

(** Lines 86-108: the loop over the values.  A path that cannot be probed is
    skipped with a warning; a path that does not exist gets its warning and
    then [list(path.iterdir())], which raises; a path that exists is added
    in its resolved form unless the path itself is in the list. *)
Fixpoint dirs_loop (disk : Disk) (values : list Path)
    (config_dirs : list Path) (out : list DirsMsg)
  : list DirsMsg * (DirsExn + list Path) :=
  match values with
  | [] => (out, inr config_dirs)
  | path :: rest =>
      match path_exists disk path with
      | Denied => dirs_loop disk rest config_dirs (out ++ [CannotAccess])
      | No => (out ++ [DoesNotExist path], inl (NoSuchDirectory path))
      | Yes =>
          if decide (path ∈ config_dirs)
          then dirs_loop disk rest config_dirs out
          else dirs_loop disk rest (config_dirs ++ [resolve disk path]) out
      end
  end.

(** [config_dirs_validator(config, values)], given the module constants. *)
Definition config_dirs_validator (disk : Disk) (USER_HOME_PAV : Path)
    (PAV_CONFIG_DIR : option Path) (user_config : bool) (values : list Path)
  : list DirsMsg * (DirsExn + list Path) :=
  match first_dirs disk USER_HOME_PAV PAV_CONFIG_DIR user_config with
  | inl e => ([], inl e)
  | inr config_dirs => dirs_loop disk values config_dirs []
  end.

(** ** [get_version] *)

(** The characters [str.strip()] removes. *)
Class Whitespace : Set := isspace : Ascii.ascii → bool.

(** [s.split(sep)] for a separator of one character: the pieces between the
    separators, at least one. *)
Fixpoint split_on (sep : Ascii.ascii) (s : string) : list string :=
  match s with
  | EmptyString => [EmptyString]
  | String c s' =>
      if Ascii.eqb c sep then EmptyString :: split_on sep s'
      else match split_on sep s' with
           | piece :: pieces => String c piece :: pieces
           | [] => [String c EmptyString]
           end
  end.

Fixpoint lstrip `{Whitespace} (s : string) : string :=
  match s with
  | EmptyString => EmptyString
  | String c s' => if isspace c then lstrip s' else s
  end.

Fixpoint rstrip `{Whitespace} (s : string) : string :=
  match s with
  | EmptyString => EmptyString
  | String c s' =>
      match rstrip s' with
      | EmptyString => if isspace c then EmptyString else String c EmptyString
      | kept => String c kept
      end
  end.

(** [s.strip()]. *)
Definition strip `{Whitespace} (s : string) : string := rstrip (lstrip s).

(** What opening and reading [RELEASE.txt] gives: its lines as
    [readlines()] returns them, [FileNotFoundError], or another error. *)
Inductive ReadResult : Set :=
| FileLines (lines : list string)
| FileNotFound
| ReadFailed.

(** How [get_version] ends: with a string, with the [IndexError] of
    [line.split('=')[1]], or with the error of reading the file. *)
Inductive VersionExit : Set :=
| Version (v : string)
| VersionIndexError
| VersionReadError.

Definition unknown_version : string := "<unknown>".

(** Lines 437-441: the loop over the lines. *)
Fixpoint scan_release `{Whitespace} (lines : list string) : VersionExit :=
  match lines with
  | [] => Version unknown_version
  | line :: rest =>
      if String.prefix "RELEASE=" line then
        match split_on "="%char line !! 1%nat with
        | Some piece => Version (strip piece)
        | None => VersionIndexError
        end
      else scan_release rest
  end.

(** [get_version()], given what reading [PAV_ROOT/'RELEASE.txt'] gives. *)
Definition get_version `{Whitespace} (release_txt : ReadResult) : VersionExit :=
  match release_txt with
  | FileLines lines => scan_release lines
  | FileNotFound => Version unknown_version
  | ReadFailed => VersionReadError
  end.

(** The text of [line] after [RELEASE=] up to the next [=]. *)
Fixpoint until (sep : Ascii.ascii) (s : string) : string :=
  match s with
  | EmptyString => EmptyString
  | String c s' => if Ascii.eqb c sep then EmptyString else String c (until sep s')
  end.

Fixpoint has_char (c : Ascii.ascii) (s : string) : bool :=
  match s with
  | EmptyString => false
  | String c' s' => Ascii.eqb c' c || has_char c s'
  end.

(** * The [graph] command *)

(** The parsed command line as [GraphCommand.run] reads it: [args.tests],
    [args.exclude] ([None] when the option is not given), and [args.user]
    and [args.date] ([None] stands for their default [False]). *)
Record GraphArgs : Set := mkGraphArgs {
  graph_tests : list string;
  graph_exclude : option (list string);
  graph_user : option string;
  graph_date : option string
}.

(** An entry of [tests_dir.iterdir()] with what [run] asks of it:
    [.name], [.is_dir()] and [.owner()] ([None] stands for the [KeyError]
    of a uid without a name). *)
Record PathEntry : Set := mkEntry {
  entry_name : string;
  entry_is_dir : bool;
  entry_owner : option string
}.

Inductive GraphExn : Set :=
| GraphTypeError        (* [x in None] *)
| GraphKeyError         (* [test_path.owner()] *)
| GraphValueError       (* [int(test_id)] *)
| GraphSeriesError.     (* whatever extending with the series raises *)

(** [needle in hay] on strings. *)
Fixpoint substring (needle hay : string) : bool :=
  String.prefix needle hay ||
  match hay with
  | EmptyString => false
  | String _ hay' => substring needle hay'
  end.

(** Truth value of a string option of the command line. *)
Definition given (o : option string) : option string :=
  match o with
  | Some EmptyString => None
  | other => other
  end.

(** Lines 71-84: one directory entry.  [inr true] when the name is
    appended, [inr false] when the entry is passed over. *)
Definition graph_keep (args : GraphArgs) (test_path : PathEntry)
  : GraphExn + bool :=
  if negb (entry_is_dir test_path) then inr false
  else
    match graph_exclude args with
    | None => inl GraphTypeError
    | Some exclude =>
        if bool_decide (entry_name test_path ∈ exclude) then inr false
        else
          match entry_owner test_path with
          | None => inl GraphKeyError
          | Some owner =>
              if bool_decide (owner ∈ exclude) then inr false
              else
                match given (graph_user args) with
                | Some user => inr (substring owner user)
                | None => inr true
                end
          end
    end.

(** Lines 69-84: the names appended to [args.tests]. *)
Fixpoint graph_select (args : GraphArgs) (listing : list PathEntry)
  : GraphExn + list string :=
  match listing with
  | [] => inr []
  | test_path :: rest =>
      match graph_keep args test_path with
      | inl e => inl e
      | inr keep =>
          match graph_select args rest with
          | inl e => inl e
          | inr names => inr (if keep then entry_name test_path :: names else names)
          end
      end
  end.

(** Lines 86-92: the second loop, given [int] and what extending the list
    with [TestSeries.from_id(pav_cfg, test_id)] gives. *)
Fixpoint graph_resolve (int : string → option Z)
    (from_id : string → option (list Z))
    (exclude : option (list string)) (tests : list string)
    (test_list : list Z) : GraphExn + list Z :=
  match tests with
  | [] => inr test_list
  | test_id :: rest =>
      let expand :=
        if String.prefix "s" test_id then
          match exclude with
          | None => inl GraphTypeError
          | Some ex => inr (negb (bool_decide (test_id ∈ ex)))
          end
        else inr false in
      match expand with
      | inl e => inl e
      | inr true =>
          match from_id test_id with
          | Some members =>
              graph_resolve int from_id exclude rest (test_list ++ members)
          | None => inl GraphSeriesError
          end
      | inr false =>
          match int test_id with
          | Some n => graph_resolve int from_id exclude rest (test_list ++ [n])
          | None => inl GraphValueError
          end
      end
  end.

(** [GraphCommand.run]: what [args.tests] holds and what [test_list] holds
    when the function ends, or the exception that leaves it. *)
Definition graph_run (int : string → option Z)
    (from_id : string → option (list Z))
    (listing : list PathEntry) (args : GraphArgs)
  : GraphExn + (list string * list Z) :=
  match (match graph_tests args with
         | [] => graph_select args listing
         | tests => inr tests
         end) with
  | inl e => inl e
  | inr tests =>
      match graph_resolve int from_id (graph_exclude args) tests [] with
      | inl e => inl e
      | inr test_list => inr (tests, test_list)
      end
  end.

(** ** [_configs_validator] and [_setup_working_dir] *)

(** What loading [config_dir/'config.yaml'] with [ConfigLoader] gives: the
    values of [label] and [working_dir] (both [None] for a file that is not
    there, which is loaded as the empty config), a [PermissionError], or any
    other exception. *)
Inductive ConfigRead : Set :=
| ReadOk (label : option string) (working_dir : option Path)
| ReadDenied
| ReadBroken.

(** What the two functions need of the machine, whose state is [FS]: the
    read above, [Path.mkdir(exist_ok=True)] ([None] stands for [OSError]),
    and of pathlib the [/] with a name and with a path, [expanduser()] and
    [is_absolute()]. *)
Record Machine (FS : Type) : Type := mkMachine {
  read_config : FS → Path → ConfigRead;
  mkdir : FS → Path → option FS;
  path_join : Path → string → Path;
  path_concat : Path → Path → Path;
  expanduser : Path → Path;
  is_absolute : Path → bool
}.
Arguments read_config {FS}.
Arguments mkdir {FS}.
Arguments path_join {FS}.
Arguments path_concat {FS}.
Arguments expanduser {FS}.
Arguments is_absolute {FS}.

(** Lines 196-206: the directories are made in order; the first [mkdir]
    that fails ends the function with [RuntimeError] about its path. *)
Fixpoint make_dirs {FS} (m : Machine FS) (s : FS) (paths : list Path)
  : FS * option Path :=
  match paths with
  | [] => (s, None)
  | path :: rest =>
      match mkdir m s path with
      | Some s' => make_dirs m s' rest
      | None => (s, Some path)
      end
  end.

Definition _setup_working_dir {FS} (m : Machine FS) (s : FS) (working_dir : Path)
  : FS * option Path :=
  make_dirs m s
    [working_dir;
     path_join m working_dir "builds";
     path_join m working_dir "series";
     path_join m working_dir "test_runs";
     path_join m working_dir "users"].

(** The config of one directory as [_configs_validator] leaves it. *)
Record DirConfig : Set := mkDirConfig {
  cfg_label : option string;
  cfg_working_dir : option Path;
  cfg_path : option Path
}.

(** [configs[label] = config] on an [OrderedDict]: a key that is there keeps
    its place and gets the new value, a new key goes to the end. *)
Fixpoint od_set {V} (key : string) (v : V) (od : list (string * V))
  : list (string * V) :=
  match od with
  | [] => [(key, v)]
  | (k, v') :: rest =>
      if decide (k = key) then (k, v) :: rest
      else (k, v') :: od_set key v rest
  end.

(** Truth value of [label]. *)
Definition label_given (label : option string) : bool :=
  match label with
  | Some (String _ _) => true
  | _ => false
  end.

(** The module constants the validator compares a directory with. *)
Record KnownDirs : Set := mkKnownDirs {
  USER_HOME_PAV : Path;
  PAV_CONFIG_DIR : option Path;
  LIB_DIR : Path                (* [Path(__file__).parent] *)
}.

(** Lines 149-158. *)
Definition default_label (known : KnownDirs) (config_dir : Path)
    (label : option string) : option string :=
  if label_given label then label
  else if decide (config_dir = USER_HOME_PAV known) then Some "user"
  else if decide (Some config_dir = PAV_CONFIG_DIR known) then Some "main"
  else if decide (config_dir = LIB_DIR known) then Some "lib"
  else label.

Inductive ConfigsMsg : Set :=
| CouldNotLoad (config_path : Path)
| MissingOrDuplicateLabel (label : string) (config_path : Path)
    (new_label : string)
| CouldNotConfigure (config_path : Path).

Inductive ConfigsExn : Set :=
| ConfigsValueError
| ConfigsRuntimeError (config_dir : Path).

(** What the loop of the validator threads. *)
Record ConfigsState (FS : Type) : Type := mkConfigsState {
  machine_state : FS;
  printed : list ConfigsMsg;
  label_i : nat;
  configs : list (string * DirConfig)
}.
Arguments mkConfigsState {FS}.
Arguments machine_state {FS}.
Arguments printed {FS}.
Arguments label_i {FS}.
Arguments configs {FS}.

(** Lines 170-175: the working directory of a config directory. *)
Definition working_dir_of {FS} (m : Machine FS) (pav_working_dir : Path)
    (config_dir : Path) (working_dir : option Path) : Path :=
  let wd := match working_dir with
            | Some wd => wd
            | None => pav_working_dir
            end in
  let wd := expanduser m wd in
  if is_absolute m wd then wd else path_concat m config_dir wd.

(** Lines 129-188: the body of the loop.  [inl] is the [RuntimeError] that
    leaves the function. *)
Definition configs_step {FS} (m : Machine FS) (known : KnownDirs)
    (pav_working_dir : Path) (st : ConfigsState FS) (config_dir : Path)
  : Path + ConfigsState FS :=
  let config_path := path_join m config_dir CONFIG_NAME in
  match read_config m (machine_state st) config_path with
  | ReadDenied =>
      inr (mkConfigsState (machine_state st)
             (printed st ++ [CouldNotLoad config_path])
             (label_i st) (configs st))
  | ReadBroken => inl config_dir
  | ReadOk config_label config_working_dir =>
      let label := default_label known config_dir config_label in
      let taken :=
        match label with
        | Some l => bool_decide (l ∈ (configs st).*1)
        | None => false
        end in
      let relabel := taken || negb (label_given label) in
      let key := match label with
                 | Some l => l
                 | None => "<not_defined>"
                 end in
      let new_label := "lbl" +:+ pretty (label_i st) in
      let label_i' := if relabel then (label_i st + 1)%nat else label_i st in
      let printed' :=
        if relabel
        then printed st ++ [MissingOrDuplicateLabel key config_path new_label]
        else printed st in
      let config_label' := if relabel then Some new_label else config_label in
      let working_dir :=
        working_dir_of m pav_working_dir config_dir config_working_dir in
      match _setup_working_dir m (machine_state st) working_dir with
      | (s', Some _) =>
          inr (mkConfigsState s' (printed' ++ [CouldNotConfigure config_path])
                 label_i' (configs st))
      | (s', None) =>
          inr (mkConfigsState s' printed' label_i'
                 (od_set key
                    (mkDirConfig config_label' (Some working_dir)
                       (Some config_dir))
                    (configs st)))
      end
  end.

Fixpoint configs_loop {FS} (m : Machine FS) (known : KnownDirs)
    (pav_working_dir : Path) (config_dirs : list Path) (st : ConfigsState FS)
  : ConfigsState FS * option ConfigsExn :=
  match config_dirs with
  | [] => (st, None)
  | config_dir :: rest =>
      match configs_step m known pav_working_dir st config_dir with
      | inl dir => (st, Some (ConfigsRuntimeError dir))
      | inr st' => configs_loop m known pav_working_dir rest st'
      end
  end.

(** [_configs_validator(pav_cfg, values)]: the state it leaves and the
    exception that left it, if any; [configs] of the state is what it
    returns.  [values_given] is the truth value of [values]. *)
Definition _configs_validator {FS} (m : Machine FS) (known : KnownDirs)
    (s : FS) (pav_config_dirs : list Path) (pav_working_dir : Path)
    (values_given : bool) : ConfigsState FS * option ConfigsExn :=
  if values_given then (mkConfigsState s [] 1%nat [], Some ConfigsValueError)
  else configs_loop m known pav_working_dir pav_config_dirs
         (mkConfigsState s [] 1%nat []).

(** The entry the validator makes for a directory that loads with the
    label [lab d] and the working directory [wdir d]. *)
Definition dir_entry {FS} (m : Machine FS) (pav_working_dir : Path)
    (lab : Path → string) (wdir : Path → option Path)
    (d : Path) : string * DirConfig :=
  (lab d,
   mkDirConfig (Some (lab d))
     (Some (working_dir_of m pav_working_dir d (wdir d))) (Some d)).

(** What holds of the entries at every turn of the loop. *)
Definition entries_sound {FS} (m : Machine FS) (pav_working_dir : Path)
    (dirs : list Path) (st : ConfigsState FS) : Prop :=
  NoDup (configs st).*1 ∧
  ∀ key c, (key, c) ∈ configs st →
    ∃ d s0 lbl wd0,
      d ∈ dirs ∧
      read_config m s0 (path_join m d CONFIG_NAME) = ReadOk lbl wd0 ∧
      cfg_path c = Some d ∧
      cfg_working_dir c = Some (working_dir_of m pav_working_dir d wd0) ∧
      (cfg_label c = lbl ∨
       ∃ i, (1 ≤ i < label_i st)%nat ∧ cfg_label c = Some ("lbl" +:+ pretty i)).

(** ** Sample inputs for the configuration and for [graph] *)

Definition home_config : Path := "/home/u/.pavilion/pavilion.yaml".

(** A machine where only the user's [pavilion.yaml] is a file; the config
    of a file is its own name. *)
Definition sample_loader : Loader string :=
  mkLoader string
    (λ p, if decide (p = home_config) then Yes
          else if decide (p = "/locked/pavilion.yaml") then Denied else No)
    (λ d name, d +:+ "/" +:+ name)
    (λ p, Some p)
    "".

(** A disk with two directories and one that may not be probed; paths
    resolve to themselves. *)
Definition sample_disk : Disk :=
  mkDisk
    (λ p, if decide (p = "/etc/pav") then Yes
          else if decide (p = "/opt/pav") then Yes
          else if decide (p = "/secret") then Denied else No)
    (λ p, p).

(** The ASCII whitespace of [str.strip()]. *)
Definition ascii_space : Whitespace :=
  λ c, let n := nat_of_ascii c in
       ((9 <=? n) && (n <=? 13) || (28 <=? n) && (n <=? 32))%nat.

(** A machine whose state is the list of the directories made so far:
    [/a] and [/b] carry labels, other directories carry none. *)
Definition sample_machine : Machine (list Path) :=
  mkMachine (list Path)
    (λ _ p, if decide (p = "/a/config.yaml") then ReadOk (Some "alpha") None
            else if decide (p = "/b/config.yaml")
                 then ReadOk (Some "beta") (Some "/scratch/b")
                 else ReadOk None None)
    (λ s p, Some (s ++ [p]))
    (λ d name, d +:+ "/" +:+ name)
    (λ d wd, d +:+ "/" +:+ wd)
    (λ p, p)
    (String.prefix "/").

Definition sample_known : KnownDirs :=
  mkKnownDirs "/home/u/.pavilion" None "/opt/pavilion/lib/pavilion".

Definition sample_lab (d : Path) : string :=
  if decide (d = "/a") then "alpha" else "beta".

Definition sample_wdir (d : Path) : option Path :=
  if decide (d = "/a") then None else Some "/scratch/b".

Definition sample_listing : list PathEntry :=
  [mkEntry "1" true (Some "bob"); mkEntry "2" true (Some "eve");
   mkEntry "notes.txt" false None; mkEntry "3" true (Some "bo");
   mkEntry "4" true (Some "bob")].

Definition no_series : string → option (list Z) := λ _, None.

Definition nl : string := String "010" EmptyString.

(** A [RELEASE.txt] as [readlines()] gives it. *)
Definition release_lines : list string :=
  ["# Pavilion" +:+ nl; "RELEASE= 2.4 =stable" +:+ nl; "RELEASE=3" +:+ nl].

Definition graph_sample_args : GraphArgs :=
  mkGraphArgs [] (Some ["4"; "eve"]) (Some "bobby") None.

(** ** The command *)

(** The parsed command line ([args.tests], [args.all], [args.status],
    [args.json]). *)
Record Args : Set := mkArgs {
  args_tests : list string;
  args_all : bool;
  args_status : bool;
  args_json : bool
}.

(** The two ways a series lookup fails in [run]. *)
Inductive SeriesFault : Set := TestSeriesError | ValueError.

Section Cancel.

(** Python's [int(str)]; [None] stands for its [ValueError]. *)
Variable py_int : string → option Z.

(** The name of the directory of a run under [test_runs], by its id (the
    path helper that [TestRun.load] relies on). *)
Variable id_path : Z → string.

(** [TestRun.load(pav_cfg, test_id)]; [None] stands for [TestRunError]. *)
Definition TestRun_load (w : World) (test_id : Z) : option RunDir :=
  test_runs w !! id_path test_id.

(** [schedulers.get_plugin(name)]; [None] stands for the error of an
    unknown scheduler name. *)
Definition get_plugin (w : World) (name : string) : option SchedulerPlugin :=
  plugins w !! name.

(** [series_util.load_user_series_id(pav_cfg)]. *)
Definition load_user_series_id (w : World) : option string :=
  user_series w !! euid w.

(** Modelled from the spec: [TestSeries.get_pgid] and [TestSeries.from_id]
    (module pavilion.series) on an id [s<number>]: a suffix that is no
    number is not a valid series ([ValueError]), a number without a record
    under [series/] could not be found ([TestSeriesError]). *)
Definition find_series (w : World) (test_id : string)
  : SeriesFault + SeriesRec :=
  match test_id with
  | EmptyString => inl ValueError
  | String _ num =>
      match py_int num with
      | None => inl ValueError
      | Some k =>
          match series_dir w !! k with
          | None => inl TestSeriesError
          | Some sr => inr sr
          end
      end
  end.

(** Truth value of [series_pgid] in [if series_pgid:]. *)
Definition truthy (p : option Z) : option Z :=
  match p with
  | Some q => if decide (q = 0) then None else Some q
  | None => None
  end.

(** Lines 59-64: the walk over [tests_dir.iterdir()]. *)
Fixpoint own_unfinished (user_id : Z) (dirs : list (string * RunDir))
  : list string :=
  match dirs with
  | [] => []
  | (name, test) :: rest =>
      if decide (st_uid test = user_id) then
        if negb (RUN_COMPLETE test) then name :: own_unfinished user_id rest
        else own_unfinished user_id rest
      else own_unfinished user_id rest
  end.

(** Lines 54-69: what [args.tests] holds when the first loop starts. *)
Definition default_tests (w : World) (args : Args) : list string :=
  match args_tests args with
  | [] =>
      if args_all args then
        own_unfinished (euid w) (map_to_list (test_runs w))
      else
        match load_user_series_id w with
        | Some series_id => [series_id]
        | None => []
        end
  | given => given
  end.

(** Lines 92-103: signal the process group of a series. *)
Definition kill_series (test_id : string) (series_pgid : option Z)
  : Cmd unit :=
  match truthy series_pgid with
  | None => mret tt
  | Some p =>
      w ← get_world;
      match os_killpg w p with
      | Delivered =>
          modify_world (λ w, log_signal w p);;
          fprint (KilledProcess p test_id)
      | NoSuchProcess => fprint (UnableToKill test_id p)
      | NotPermitted => leave (Raise PermissionError)
      | InvalidArgument => leave (Raise OSError)
      | OutOfRange => leave (Raise OverflowError)
      end
  end.

(** Lines 73-113: the body of the first loop. *)
Definition resolve_id (test_id : string) (test_list : list Z)
  : Cmd (list Z) :=
  if String.prefix "s" test_id then
    w ← get_world;
    match find_series w test_id with
    | inl TestSeriesError =>
        fprint (SeriesNotFound test_id);; leave (Return EINVAL)
    | inl ValueError =>
        fprint (SeriesNotValid test_id);; leave (Return EINVAL)
    | inr sr =>
        kill_series test_id (pgid sr);;
        mret (test_list ++ tests sr)
    end
  else
    match py_int test_id with
    | Some n => mret (test_list ++ [n])
    | None => fprint (TestNotValid test_id);; leave (Return EINVAL)
    end.

(** [status.state in (STATES.RUNNING, STATES.SCHEDULED)]. *)
Definition cancellable (s : STATES.t) : bool :=
  match s with
  | STATES.RUNNING | STATES.SCHEDULED => true
  | _ => false
  end.

(** Lines 130-132: ask the scheduler, record its answer, mark the run
    complete. *)
Definition cancel_run (test_id : Z) (test : RunDir) (sched : SchedulerPlugin)
  : Cmd unit :=
  let cancel_status := cancel_job sched test_id test in
  modify_world (λ w, log_cancel_job w test_id);;
  match status_set (status test) (state cancel_status) (note cancel_status) with
  | None => leave (Raise InvalidTransition)
  | Some ledger =>
      modify_world (λ w, set_test_runs w
        (<[id_path test_id := set_run_complete (with_status test ledger)]>
           (test_runs w)))
  end.

(** Lines 118-151: the body of the second loop. *)
Definition cancel_test (test_id : Z) (test_object_list : list Z)
  : Cmd (list Z) :=
  w ← get_world;
  match TestRun_load w test_id with
  | None => fprint (TestNotFound test_id);; leave (Return EINVAL)
  | Some test =>
      match get_plugin w (scheduler test) with
      | None => leave (Raise SchedulerPluginError)
      | Some sched =>
          let st := current (status test) in
          (if cancellable (state st) then
             cancel_run test_id test sched;;
             fprint (TestCancelled test_id)
           else
             fprint (TestNotCancellable test_id (state st)));;
          mret (test_object_list ++ [test_id])
      end
  end.

(** Modelled from the spec: [print_from_tests] (module
    pavilion.status_utils) prints one row per loaded run with the current
    entry of its ledger. *)
Definition print_from_tests (test_object_list : list Z) (json : bool)
  : Cmd unit :=
  w ← get_world;
  fprint (StatusTable json
    (map (λ n, (n, (current ∘ status) <$> TestRun_load w n))
         test_object_list)).

(** [cancel_failed = False], as an exit status. *)
Definition cancel_failed : bool := false.

(** Lines 115-160: the second loop and the closing report, given the
    resolved [test_list]. *)
Definition cancel_phase (test_list : list Z) (args : Args) : Cmd Z :=
  test_object_list ← for_each cancel_test test_list [];
  if args_status args && negb (bool_decide (test_object_list = [])) then
    print_from_tests test_object_list (args_json args);;
    mret (Z.b2z cancel_failed)
  else
    mret (Z.b2z cancel_failed).

(** Lines 71-160: the first loop, then the rest. *)
Definition run_body (w : World) (args : Args) : Cmd Z :=
  test_list ← for_each resolve_id (default_tests w args) [];
  cancel_phase test_list args.

(** [CancelCommand.run]: the world it leaves, what it printed, and how it
    ended. *)
Definition finish (r : Proc * (Exit + Z)) : World * list Msg * Exit :=
  match r with
  | (s, inl e) => (s, e)
  | (s, inr code) => (s, Return code)
  end.

Definition run (w : World) (args : Args) : World * list Msg * Exit :=
  finish (run_body w args (w, [])).

(** ** Vocabulary of the properties *)

(** What one identifier stands for: the members of the series it names, or
    the run id it spells; [None] when it is malformed or names no series. *)
Definition expansion (w : World) (test_id : string) : option (list Z) :=
  if String.prefix "s" test_id then
    match find_series w test_id with
    | inl _ => None
    | inr sr => Some (tests sr)
    end
  else
    match py_int test_id with
    | Some n => Some [n]
    | None => None
    end.

Definition loadable (w : World) (n : Z) : bool :=
  match TestRun_load w n with Some _ => true | None => false end.

(** An identifier resolves when it has an expansion and every run of it
    can be loaded. *)
Definition resolves (w : World) (test_id : string) : bool :=
  match expansion w test_id with
  | Some l => forallb (loadable w) l
  | None => false
  end.

(** The two faults of the substrate that [run] does not handle: a process
    group that [os.killpg] refuses to signal (any of its errors but
    [ProcessLookupError]), and a run whose scheduler is not registered. *)
Definition kill_refused (w : World) (test_id : string) : bool :=
  String.prefix "s" test_id &&
  match find_series w test_id with
  | inr sr =>
      match truthy (pgid sr) with
      | Some p =>
          match kill_fault (os_killpg w p) with
          | Some _ => true
          | None => false
          end
      | None => false
      end
  | inl _ => false
  end.

Definition plugin_missing (w : World) (n : Z) : bool :=
  match TestRun_load w n with
  | Some test =>
      match get_plugin w (scheduler test) with
      | Some _ => false
      | None => true
      end
  | None => false
  end.

Definition faulty (w : World) (test_id : string) : bool :=
  kill_refused w test_id ||
  match expansion w test_id with
  | Some l => existsb (plugin_missing w) l
  | None => false
  end.

(** A line of the output that reports the outcome of run [n]. *)
Definition reports (n : Z) (m : Msg) : bool :=
  match m with
  | TestCancelled k => bool_decide (k = n)
  | TestNotCancellable k _ => bool_decide (k = n)
  | _ => false
  end.

(** The worlds [w] and [w'] hold the same runs under the same schedulers. *)
Definition runs_agree (w w' : World) : Prop :=
  plugins w' = plugins w ∧
  ∀ name, scheduler <$> test_runs w' !! name
          = scheduler <$> test_runs w !! name.

(** The run directory after a successful cancel: the scheduler's answer at
    the end of the ledger, the marker written. *)
Definition cancelled_dir (test : RunDir) (answer : StatusInfo) : RunDir :=
  mkRunDir (st_uid test) true (scheduler test)
    (mkLedger (creation (status test)) (appended (status test) ++ [answer])).

Definition cancelled_world (w : World) (test_id : Z) (test : RunDir)
    (answer : StatusInfo) : World :=
  set_test_runs (log_cancel_job w test_id)
    (<[id_path test_id := cancelled_dir test answer]> (test_runs w)).

(** The world after more process groups were signalled. *)
Definition add_signals (w : World) (ps : list Z) : World :=
  mkWorld (euid w) (test_runs w) (series_dir w) (user_series w) (plugins w)
          (os_killpg w) (signalled w ++ ps) (cancelled_jobs w).

(** What the first loop ends with when nothing stops it: the expansions of
    the identifiers, one after the other. *)
Definition resolved_list (w : World) (ids : list string) : Exit + list Z :=
  match mapM (expansion w) ids with
  | Some ls => inr (concat ls)
  | None => inl (Return EINVAL)
  end.

(** What the second loop ends with when every scheduler is known. *)
Definition loop_verdict (w : World) (objs ns : list Z) : Exit + list Z :=
  if forallb (loadable w) ns then inr (objs ++ ns)
  else inl (Return EINVAL).

(** The closing table for a single loaded run. *)
Definition table_of (args : Args) (n : Z) (row : StatusInfo) : list Msg :=
  if args_status args then [StatusTable (args_json args) [(n, Some row)]]
  else [].

(** ** Four readings that the code does not bear out

    They are stated here as they are written and refuted further down. *)

(** Every identifier of the batch that stands for runs that load has each
    of them reported, whatever the other identifiers are. *)
Definition failures_are_isolated (w : World) (args : Args) : Prop :=
  ∀ test_id l n,
    test_id ∈ default_tests w args →
    expansion w test_id = Some l → n ∈ l → loadable w n = true →
    existsb (reports n) (run w args).1.2 = true.

(** A run found in state CREATED is in state CANCELLED after [run]. *)
Definition created_run_gets_cancelled (w : World) (args : Args) (n : Z)
  : Prop :=
  ∀ test,
    TestRun_load w n = Some test →
    state (current (status test)) = STATES.CREATED →
    ∃ test',
      TestRun_load (run w args).1.1 n = Some test' ∧
      state (current (status test')) = STATES.CANCELLED.

(** The list the first loop builds holds no run id twice. *)
Definition resolution_has_no_duplicates (w : World) (ids : list string)
  : Prop :=
  ∀ s test_list,
    for_each resolve_id ids [] (w, []) = (s, inr test_list) →
    NoDup test_list.

(** The call hands its verdict back as a value: 0 when every identifier
    resolves, another code when one does not. *)
Definition outcome_is_returned (w : World) (args : Args) : Prop :=
  ∃ code,
    (run w args).2 = Return code ∧
    (forallb (resolves w) (default_tests w args) = true → code = 0) ∧
    (forallb (resolves w) (default_tests w args) = false → code ≠ 0).

(** ** What a call of [run] keeps *)

(** Everything of the world that is not a run directory or a trace. *)
Definition same_host (w w' : World) : Prop :=
  euid w' = euid w ∧ series_dir w' = series_dir w ∧
  user_series w' = user_series w ∧ plugins w' = plugins w ∧
  os_killpg w' = os_killpg w.

(** A run directory [d] and what became of it: same owner and scheduler,
    the old ledger entries followed by new ones, the marker still there if
    it was, and no change at all if its state was not cancellable. *)
Definition dir_grows (d d' : RunDir) : Prop :=
  st_uid d' = st_uid d ∧ scheduler d' = scheduler d ∧
  creation (status d') = creation (status d) ∧
  (∃ more, appended (status d') = appended (status d) ++ more) ∧
  (RUN_COMPLETE d = true → RUN_COMPLETE d' = true) ∧
  (cancellable (state (current (status d))) = false → d' = d).

Definition runs_grow (w w' : World) : Prop :=
  ∀ name,
    match test_runs w !! name with
    | Some d => ∃ d', test_runs w' !! name = Some d' ∧ dir_grows d d'
    | None => test_runs w' !! name = None
    end.

(** The runs that the lines of the output call cancelled, and the process
    groups they call killed. *)
Definition cancelled_ids (out : list Msg) : list Z :=
  omap (λ m, match m with TestCancelled n => Some n | _ => None end) out.

Definition killed_groups (out : list Msg) : list Z :=
  omap (λ m, match m with KilledProcess p _ => Some p | _ => None end) out.

(** From [s] to [s']: lines were added to the output, and the two traces
    grew by what these lines say. *)
Definition traces_match (s s' : Proc) : Prop :=
  ∃ outs,
    s'.2 = s.2 ++ outs ∧
    cancelled_jobs s'.1 = cancelled_jobs s.1 ++ cancelled_ids outs ∧
    signalled s'.1 = signalled s.1 ++ killed_groups outs.

(** Every run the new lines call cancelled was, in [w], a directory in a
    cancellable state. *)
Definition cancelled_were_cancellable (w : World) (s s' : Proc) : Prop :=
  ∀ outs n,
    s'.2 = s.2 ++ outs → n ∈ cancelled_ids outs →
    ∃ d, TestRun_load w n = Some d
         ∧ cancellable (state (current (status d))) = true.

(** The directory of run [n] after the pass of the second loop over it. *)
Definition after_cancel (w : World) (n : Z) (d : RunDir) : RunDir :=
  match get_plugin w (scheduler d) with
  | Some sched =>
      if cancellable (state (current (status d)))
      then cancelled_dir d (cancel_job sched n d) else d
  | None => d
  end.

(** The line the pass of the second loop over run [n] prints. *)
Definition report_line (w : World) (n : Z) : Msg :=
  match TestRun_load w n with
  | Some d =>
      if cancellable (state (current (status d))) then TestCancelled n
      else TestNotCancellable n (state (current (status d)))
  | None => TestNotFound n
  end.

Definition will_cancel (w : World) (n : Z) : bool :=
  match TestRun_load w n with
  | Some d => cancellable (state (current (status d)))
  | None => false
  end.

(** All of it together: how a state of the command relates to a later
    one. *)
Definition evolves (s s' : Proc) : Prop :=
  same_host s.1 s'.1 ∧ runs_grow s.1 s'.1 ∧ traces_match s s' ∧
  cancelled_were_cancellable s.1 s s'.

(** A line that names no cancelled run and no killed group. *)
Definition quiet (m : Msg) : bool :=
  match m with
  | TestCancelled _ | KilledProcess _ _ => false
  | _ => true
  end.

Definition is_table (m : Msg) : bool :=
  match m with
  | StatusTable _ _ => true
  | _ => false
  end.

(** No status table among the lines printed so far. *)
Definition no_table (s : Proc) : Prop :=
  Forall (λ m, is_table m = false) s.2.

(** ** Loops and single steps *)

Lemma for_each_app {A B} (body : A → B → Cmd B) xs ys acc s :
  for_each body (xs ++ ys) acc s =
  match for_each body xs acc s with
  | (s', inl e) => (s', inl e)
  | (s', inr acc') => for_each body ys acc' s'
  end.
Proof.
  revert acc s. induction xs as [|x xs IH]; intros acc s; simpl.
  - reflexivity.
  - unfold mbind, Cmd_bind.
    destruct (body x acc s) as [s1 [e|acc1]]; [reflexivity | apply IH].
Qed.

Lemma cancellable_not_terminal s :
  cancellable s = true → STATES.terminal s = false.
Proof. destruct s; simpl; congruence. Qed.

Lemma terminal_not_cancellable s :
  STATES.terminal s = true → cancellable s = false.
Proof. destruct s; simpl; congruence. Qed.

Lemma cancellable_spec s :
  cancellable s = true ↔ s = STATES.RUNNING ∨ s = STATES.SCHEDULED.
Proof. destruct s; simpl; intuition congruence. Qed.

(** The [else] branch: the run is reported and nothing else happens. *)
Lemma cancel_test_skip w out objs n test sched :
  TestRun_load w n = Some test →
  get_plugin w (scheduler test) = Some sched →
  cancellable (state (current (status test))) = false →
  cancel_test n objs (w, out) =
    ((w, out ++ [TestNotCancellable n (state (current (status test)))]),
     inr (objs ++ [n])).
Proof.
  intros Hload Hplug Hst. unfold cancel_test, mbind, Cmd_bind; simpl.
  rewrite Hload, Hplug, Hst. reflexivity.
Qed.

(** The [if] branch. *)
Lemma cancel_test_cancel w out objs n test sched :
  TestRun_load w n = Some test →
  get_plugin w (scheduler test) = Some sched →
  cancellable (state (current (status test))) = true →
  cancel_test n objs (w, out) =
    ((cancelled_world w n test (cancel_job sched n test),
      out ++ [TestCancelled n]),
     inr (objs ++ [n])).
Proof.
  intros Hload Hplug Hst. unfold cancel_test, mbind, Cmd_bind; simpl.
  rewrite Hload, Hplug, Hst.
  unfold cancel_run, status_set, mbind, Cmd_bind; simpl.
  rewrite (cancellable_not_terminal _ Hst); simpl.
  destruct (cancel_job sched n test) as [s nt]; reflexivity.
Qed.

Lemma runs_agree_refl w : runs_agree w w.
Proof. split; [reflexivity | intros; reflexivity]. Qed.

Lemma runs_agree_trans w1 w2 w3 :
  runs_agree w1 w2 → runs_agree w2 w3 → runs_agree w1 w3.
Proof.
  intros [P1 R1] [P2 R2]. split; [congruence | intros name].
  rewrite R2. apply R1.
Qed.

Lemma runs_agree_cancelled w n test answer :
  TestRun_load w n = Some test →
  runs_agree w (cancelled_world w n test answer).
Proof.
  intros Hload. split; [reflexivity | intros name; simpl].
  destruct (decide (id_path n = name)) as [<-|Hne].
  - rewrite lookup_insert_eq. unfold TestRun_load in Hload.
    rewrite Hload. reflexivity.
  - rewrite lookup_insert_ne by exact Hne. reflexivity.
Qed.

Lemma runs_agree_loadable w w' n :
  runs_agree w w' → loadable w' n = loadable w n.
Proof.
  intros [_ R]. unfold loadable, TestRun_load.
  specialize (R (id_path n)).
  destruct (test_runs w' !! id_path n), (test_runs w !! id_path n);
    simpl in R; congruence.
Qed.

Lemma runs_agree_plugin_missing w w' n :
  runs_agree w w' → plugin_missing w' n = plugin_missing w n.
Proof.
  intros [P R]. unfold plugin_missing, TestRun_load, get_plugin.
  specialize (R (id_path n)). rewrite P.
  destruct (test_runs w' !! id_path n), (test_runs w !! id_path n);
    simpl in R; try congruence.
  injection R as ->. reflexivity.
Qed.

Lemma cancel_test_not_found w out objs n :
  loadable w n = false →
  cancel_test n objs (w, out) =
    ((w, out ++ [TestNotFound n]), inl (Return EINVAL)).
Proof.
  unfold loadable. intros Hl. unfold cancel_test, mbind, Cmd_bind; simpl.
  destruct (TestRun_load w n); [discriminate | reflexivity].
Qed.

Lemma forallb_agree {A} (f g : A → bool) l :
  (∀ x, f x = g x) → forallb f l = forallb g l.
Proof. intros E. induction l; simpl; [reflexivity | rewrite E, IHl; reflexivity]. Qed.

Lemma existsb_agree {A} (f g : A → bool) l :
  (∀ x, f x = g x) → existsb f l = existsb g l.
Proof. intros E. induction l; simpl; [reflexivity | rewrite E, IHl; reflexivity]. Qed.

(** One pass of the second loop: the runs and their schedulers stay, no
    signal is sent, and the pass goes on iff the run loads. *)
Lemma cancel_test_step w out objs n :
  ∃ w' out' r,
    cancel_test n objs (w, out) = ((w', out'), r) ∧
    runs_agree w w' ∧ signalled w' = signalled w ∧
    (r = inl (Raise SchedulerPluginError) ∨ r = loop_verdict w objs [n]) ∧
    (plugin_missing w n = false → r = loop_verdict w objs [n]).
Proof.
  unfold loop_verdict, plugin_missing; simpl forallb.
  destruct (loadable w n) eqn:Hl; simpl.
  - unfold loadable in Hl.
    destruct (TestRun_load w n) as [test|] eqn:Hload; [|discriminate].
    destruct (get_plugin w (scheduler test)) as [sched|] eqn:Hplug.
    + destruct (cancellable (state (current (status test)))) eqn:Hst.
      * eexists _, _, _. split; [eapply cancel_test_cancel; eassumption|].
        split; [apply runs_agree_cancelled; assumption|].
        split; [reflexivity|]. split; [right|intros _]; reflexivity.
      * eexists _, _, _. split; [eapply cancel_test_skip; eassumption|].
        split; [apply runs_agree_refl|].
        split; [reflexivity|]. split; [right|intros _]; reflexivity.
    + exists w, out, (inl (Raise SchedulerPluginError)).
      split; [unfold cancel_test, mbind, Cmd_bind; simpl;
              rewrite Hload, Hplug; reflexivity|].
      split; [apply runs_agree_refl|].
      split; [reflexivity|]. split; [left; reflexivity | discriminate].
  - eexists _, _, _. split; [apply cancel_test_not_found; exact Hl|].
    split; [apply runs_agree_refl|].
    split; [reflexivity|]. split; [right|intros _]; reflexivity.
Qed.

Lemma loop_verdict_cons w w1 objs n ns :
  loadable w n = true → runs_agree w w1 →
  loop_verdict w1 (objs ++ [n]) ns = loop_verdict w objs (n :: ns).
Proof.
  intros Hl Hag. unfold loop_verdict. simpl forallb. rewrite Hl; simpl.
  rewrite (forallb_agree (loadable w1) (loadable w))
    by (intros k; apply runs_agree_loadable, Hag).
  rewrite <- app_assoc. reflexivity.
Qed.

(** The second loop: it runs to its end iff every run loads and leaves
    with [EINVAL] otherwise, unless a scheduler is missing. *)
Lemma cancel_loop_outcome ns : ∀ objs w out,
  ∃ w' out' r,
    for_each cancel_test ns objs (w, out) = ((w', out'), r) ∧
    runs_agree w w' ∧ signalled w' = signalled w ∧
    (r = inl (Raise SchedulerPluginError) ∨ r = loop_verdict w objs ns) ∧
    (existsb (plugin_missing w) ns = false → r = loop_verdict w objs ns).
Proof.
  induction ns as [|n ns IH]; intros objs w out.
  - exists w, out, (inr objs). unfold loop_verdict; simpl.
    rewrite app_nil_r. split; [reflexivity|].
    split; [apply runs_agree_refl|]. split; [reflexivity|].
    split; [right|intros _]; reflexivity.
  - destruct (cancel_test_step w out objs n)
      as (w1 & out1 & r1 & E1 & Hag1 & Hsig1 & Hor1 & Hok1).
    simpl for_each. unfold mbind at 1, Cmd_bind at 1. rewrite E1.
    destruct r1 as [e|objs1].
    + exists w1, out1, (inl e). split; [reflexivity|].
      split; [exact Hag1|]. split; [exact Hsig1|].
      assert (Hhead : loop_verdict w objs [n] = inl e →
                      loop_verdict w objs (n :: ns) = inl e).
      { unfold loop_verdict; simpl forallb.
        destruct (loadable w n); simpl; [discriminate | trivial]. }
      split.
      * destruct Hor1 as [Hr|Hr]; [left; exact Hr | right].
        symmetry. apply Hhead. symmetry. exact Hr.
      * intros Hp. simpl in Hp. apply orb_false_iff in Hp as [Hp _].
        symmetry. apply Hhead. symmetry. apply Hok1, Hp.
    + assert (Hl : loadable w n = true ∧ objs1 = objs ++ [n]).
      { destruct Hor1 as [Hr|Hr]; [discriminate|].
        unfold loop_verdict in Hr; simpl forallb in Hr.
        destruct (loadable w n); simpl in Hr; [|discriminate].
        injection Hr as ->. split; reflexivity. }
      destruct Hl as [Hl ->].
      destruct (IH (objs ++ [n]) w1 out1)
        as (w2 & out2 & r2 & E2 & Hag2 & Hsig2 & Hor2 & Hok2).
      exists w2, out2, r2. split; [exact E2|].
      split; [eapply runs_agree_trans; eassumption|].
      split; [congruence|].
      rewrite (loop_verdict_cons w w1 objs n ns Hl Hag1) in Hor2, Hok2.
      split; [exact Hor2|].
      intros Hp. simpl in Hp. apply orb_false_iff in Hp as [_ Hp].
      apply Hok2. rewrite <- Hp. apply existsb_agree.
      intros k. apply runs_agree_plugin_missing, Hag1.
Qed.

Lemma add_signals_nil w : add_signals w [] = w.
Proof. destruct w; unfold add_signals; simpl. rewrite app_nil_r. reflexivity. Qed.

Lemma existsb_reports_snoc n out m :
  reports n m = false →
  existsb (reports n) (out ++ [m]) = existsb (reports n) out.
Proof.
  intros H. rewrite existsb_app; simpl. rewrite H.
  rewrite !orb_false_r. reflexivity.
Qed.

(** One pass of the first loop.  Only the list of signalled groups and the
    output change; no line reports a run. *)
Lemma resolve_id_step w sigs out tl test_id :
  ∃ sigs' out' r,
    resolve_id test_id tl (add_signals w sigs, out) =
      ((add_signals w sigs', out'), r) ∧
    (∀ n, existsb (reports n) out' = existsb (reports n) out) ∧
    ((∃ e, r = inl (Raise e)) ∨
     r = match expansion w test_id with
         | Some l => inr (tl ++ l)
         | None => inl (Return EINVAL)
         end) ∧
    (kill_refused w test_id = false →
     r = match expansion w test_id with
         | Some l => inr (tl ++ l)
         | None => inl (Return EINVAL)
         end).
Proof.
  unfold resolve_id, expansion, kill_refused.
  destruct (String.prefix "s" test_id) eqn:Hs; simpl.
  - unfold mbind, Cmd_bind; simpl.
    change (find_series (add_signals w sigs) test_id)
      with (find_series w test_id).
    destruct (find_series w test_id) as [[|]|sr] eqn:Hf; simpl.
    + eexists sigs, _, _. split; [reflexivity|].
      split; [intros n; apply existsb_reports_snoc; reflexivity|].
      split; [right|intros _]; reflexivity.
    + eexists sigs, _, _. split; [reflexivity|].
      split; [intros n; apply existsb_reports_snoc; reflexivity|].
      split; [right|intros _]; reflexivity.
    + unfold kill_series. destruct (truthy (pgid sr)) as [p|] eqn:Hp; simpl.
      * unfold mbind, Cmd_bind; simpl.
        destruct (os_killpg w p) eqn:Hk; simpl.
        -- exists (sigs ++ [p]). eexists _, _.
           split; [unfold add_signals, log_signal; simpl;
                   rewrite <- app_assoc; reflexivity|].
           split; [intros n; apply existsb_reports_snoc; reflexivity|].
           split; [right|intros _]; reflexivity.
        -- eexists sigs, _, _. split; [reflexivity|].
           split; [intros n; apply existsb_reports_snoc; reflexivity|].
           split; [right|intros _]; reflexivity.
        -- eexists sigs, _, _. split; [reflexivity|].
           split; [intros n; reflexivity|].
           split; [left; eexists; reflexivity | discriminate].
        -- eexists sigs, _, _. split; [reflexivity|].
           split; [intros n; reflexivity|].
           split; [left; eexists; reflexivity | discriminate].
        -- eexists sigs, _, _. split; [reflexivity|].
           split; [intros n; reflexivity|].
           split; [left; eexists; reflexivity | discriminate].
      * eexists sigs, _, _. split; [reflexivity|].
        split; [intros n; reflexivity|].
        split; [right|intros _]; reflexivity.
  - destruct (py_int test_id) as [k|] eqn:Hi; simpl.
    + eexists sigs, _, _. split; [reflexivity|].
      split; [intros n; reflexivity|].
      split; [right|intros _]; reflexivity.
    + unfold mbind, Cmd_bind; simpl.
      eexists sigs, _, _. split; [reflexivity|].
      split; [intros n; apply existsb_reports_snoc; reflexivity|].
      split; [right|intros _]; reflexivity.
Qed.

Lemma mapM_cons_Some {A B} (f : A → option B) x l y :
  f x = Some y →
  mapM f (x :: l) = match mapM f l with Some k => Some (y :: k) | None => None end.
Proof. intros E. simpl. rewrite E. simpl. destruct (mapM f l); reflexivity. Qed.

Lemma mapM_cons_None {A B} (f : A → option B) x l :
  f x = None → mapM f (x :: l) = None.
Proof. intros E. simpl. rewrite E. reflexivity. Qed.

(** The first loop.  It changes nothing but the list of signalled groups
    and the output; it leaves early when an identifier has no expansion;
    and when no signal is refused it ends with the expansions in order. *)
Lemma resolve_loop_outcome w ids : ∀ tl sigs out,
  ∃ sigs' out' r,
    for_each resolve_id ids tl (add_signals w sigs, out) =
      ((add_signals w sigs', out'), r) ∧
    (∀ n, existsb (reports n) out' = existsb (reports n) out) ∧
    (mapM (expansion w) ids = None → ∃ e, r = inl e ∧ e ≠ Return 0) ∧
    (existsb (kill_refused w) ids = false →
     r = match mapM (expansion w) ids with
         | Some ls => inr (tl ++ concat ls)
         | None => inl (Return EINVAL)
         end).
Proof.
  induction ids as [|x ids IH]; intros tl sigs out.
  - exists sigs, out, (inr tl). simpl. rewrite app_nil_r.
    split; [reflexivity|]. split; [reflexivity|].
    split; [discriminate | reflexivity].
  - destruct (resolve_id_step w sigs out tl x)
      as (sigs1 & out1 & r1 & E1 & Hrep1 & Hor & Hok).
    simpl for_each. unfold mbind at 1, Cmd_bind at 1. rewrite E1.
    destruct r1 as [e|tl1].
    + exists sigs1, out1, (inl e). split; [reflexivity|].
      split; [exact Hrep1|]. split.
      * intros _. exists e. split; [reflexivity|].
        destruct Hor as [(e' & Hr)|Hr]; [congruence|].
        destruct (expansion w x); [discriminate|].
        injection Hr as ->. discriminate.
      * intros Hk. simpl in Hk. apply orb_false_iff in Hk as [Hk _].
        specialize (Hok Hk).
        destruct (expansion w x) eqn:Hx; [discriminate|].
        rewrite (mapM_cons_None _ _ _ Hx). exact Hok.
    + destruct Hor as [(e' & Hr)|Hr]; [discriminate|].
      destruct (expansion w x) as [l|] eqn:Hx; [|discriminate].
      injection Hr as ->.
      destruct (IH (tl ++ l) sigs1 out1)
        as (sigs2 & out2 & r2 & E2 & Hrep2 & Hnone & Hok2).
      exists sigs2, out2, r2. split; [exact E2|].
      split; [intros n; rewrite Hrep2; apply Hrep1|].
      rewrite (mapM_cons_Some _ _ _ _ Hx). split.
      * intros Hm. apply Hnone.
        destruct (mapM (expansion w) ids); [discriminate | reflexivity].
      * intros Hk. simpl in Hk. apply orb_false_iff in Hk as [_ Hk].
        rewrite (Hok2 Hk).
        destruct (mapM (expansion w) ids); simpl;
          [rewrite app_assoc|]; reflexivity.
Qed.

(** The second loop and the closing report: printing the table never
    changes how the command ends. *)
Lemma cancel_phase_outcome tl args w out :
  ∃ w' out' r,
    cancel_phase tl args (w, out) = ((w', out'), r) ∧
    runs_agree w w' ∧ signalled w' = signalled w ∧
    (r = inl (Raise SchedulerPluginError) ∨
     r = if forallb (loadable w) tl then inr 0 else inl (Return EINVAL)) ∧
    (existsb (plugin_missing w) tl = false →
     r = if forallb (loadable w) tl then inr 0 else inl (Return EINVAL)).
Proof.
  destruct (cancel_loop_outcome tl [] w out)
    as (w1 & out1 & r1 & E & Hag & Hsig & Hor & Hok).
  unfold cancel_phase, mbind at 1, Cmd_bind at 1. rewrite E.
  unfold loop_verdict in Hor, Hok.
  destruct r1 as [e|objs].
  - exists w1, out1, (inl e). split; [reflexivity|].
    split; [exact Hag|]. split; [exact Hsig|]. split.
    + destruct Hor as [Hr|Hr]; [left; congruence | right].
      destruct (forallb (loadable w) tl); [discriminate | congruence].
    + intros Hp. specialize (Hok Hp).
      destruct (forallb (loadable w) tl); [discriminate | congruence].
  - assert (Hall : forallb (loadable w) tl = true).
    { destruct Hor as [Hr|Hr]; [discriminate|].
      destruct (forallb (loadable w) tl); [reflexivity | discriminate]. }
    rewrite Hall.
    destruct (args_status args && negb (bool_decide (objs = []))).
    + eexists w1, _, (inr 0). split; [reflexivity|].
      split; [exact Hag|]. split; [exact Hsig|].
      split; [right|intros _]; reflexivity.
    + eexists w1, _, (inr 0). split; [reflexivity|].
      split; [exact Hag|]. split; [exact Hsig|].
      split; [right|intros _]; reflexivity.
Qed.

Lemma resolves_all w ids :
  forallb (resolves w) ids =
  match mapM (expansion w) ids with
  | Some ls => forallb (loadable w) (concat ls)
  | None => false
  end.
Proof.
  induction ids as [|x ids IH]; [reflexivity|].
  simpl forallb. unfold resolves at 1.
  destruct (expansion w x) as [l|] eqn:Hx.
  - rewrite (mapM_cons_Some _ _ _ _ Hx), IH.
    destruct (mapM (expansion w) ids); simpl.
    + rewrite forallb_app. reflexivity.
    + apply andb_false_r.
  - rewrite (mapM_cons_None _ _ _ Hx). reflexivity.
Qed.

Lemma faulty_none w ids :
  existsb (faulty w) ids = false →
  existsb (kill_refused w) ids = false ∧
  ∀ ls, mapM (expansion w) ids = Some ls →
        existsb (plugin_missing w) (concat ls) = false.
Proof.
  induction ids as [|x ids IH]; simpl existsb.
  - intros _. split; [reflexivity|]. intros ls [= <-]. reflexivity.
  - intros H. apply orb_false_iff in H as [Hx Hrest].
    unfold faulty in Hx. apply orb_false_iff in Hx as [Hk Hm].
    destruct (IH Hrest) as [IHk IHm]. split.
    + rewrite Hk, IHk. reflexivity.
    + intros ls Hls. destruct (expansion w x) as [l|] eqn:Ex.
      * rewrite (mapM_cons_Some _ _ _ _ Ex) in Hls.
        destruct (mapM (expansion w) ids) as [k|]; [|discriminate].
        injection Hls as <-. simpl. rewrite existsb_app, Hm.
        apply IHm. reflexivity.
      * rewrite (mapM_cons_None _ _ _ Ex) in Hls. discriminate.
Qed.

(** ** The exit status *)

(** C8, amended.  [run] hands its verdict back as a value unless an
    exception it has no handler for leaves it.  Provided no signal is
    refused and no scheduler is missing for the identifiers at hand, the
    call returns, with 0 when every identifier resolves (whatever the
    states of the runs, cancellable or not) and with [EINVAL], which is
    not 0, when some identifier does not.  When [os.killpg] refuses the
    signal for a series and the identifiers before it went through the
    first loop, its exception leaves [run] at that series, before any run
    is loaded or cancelled; and when the second loop comes to a run whose
    scheduler is not registered, that error leaves [run] there. *)
Theorem run_exit_status w args :
  (existsb (faulty w) (default_tests w args) = false →
   (run w args).2 =
     Return (if forallb (resolves w) (default_tests w args)
             then 0 else EINVAL))
  ∧ EINVAL ≠ 0
  ∧ (∀ pre test_id post sr p e,
       default_tests w args = pre ++ test_id :: post →
       is_Some (mapM (expansion w) pre) →
       existsb (kill_refused w) pre = false →
       String.prefix "s" test_id = true →
       find_series w test_id = inr sr →
       truthy (pgid sr) = Some p →
       kill_fault (os_killpg w p) = Some e →
       (run w args).2 = Raise e ∧
       test_runs (run w args).1.1 = test_runs w ∧
       cancelled_jobs (run w args).1.1 = cancelled_jobs w)
  ∧ (∀ pre n post objs s s1 objs1,
       for_each cancel_test pre objs s = (s1, inr objs1) →
       plugin_missing s1.1 n = true →
       for_each cancel_test (pre ++ n :: post) objs s =
         (s1, inl (Raise SchedulerPluginError))).
Proof.
  split; [|split; [discriminate|split]].
  - intros Hf.
    destruct (faulty_none _ _ Hf) as [Hk Hm].
    destruct (resolve_loop_outcome w (default_tests w args) [] [] [])
      as (sigs & out & r & E & _ & _ & Hr).
    rewrite add_signals_nil in E. specialize (Hr Hk).
    unfold run, finish, run_body, mbind at 1, Cmd_bind at 1. rewrite E, Hr.
    rewrite resolves_all.
    destruct (mapM (expansion w) (default_tests w args)) as [ls|];
      [|reflexivity].
    cbn [app].
    destruct (cancel_phase_outcome (concat ls) args (add_signals w sigs) out)
      as (w' & out' & r' & -> & _ & _ & _ & Hr').
    rewrite (Hr' (Hm ls eq_refl)).
    change (loadable (add_signals w sigs)) with (loadable w).
    destruct (forallb (loadable w) (concat ls)); reflexivity.
  - intros pre test_id post sr p e Hd [ls Hls] Hk Hs Hf Hp He.
    destruct (resolve_loop_outcome w pre [] [] [])
      as (sigs & out & r & E & _ & _ & Hr).
    rewrite add_signals_nil in E. rewrite (Hr Hk), Hls in E. cbn [app] in E.
    assert (Hrun : run w args = (add_signals w sigs, out, Raise e)).
    { unfold run, run_body, mbind at 1, Cmd_bind at 1.
      rewrite Hd, for_each_app, E. cbn [for_each].
      unfold mbind at 1, Cmd_bind at 1. unfold resolve_id. rewrite Hs.
      unfold mbind at 1, Cmd_bind at 1. cbn [get_world fst].
      change (find_series (add_signals w sigs) test_id)
        with (find_series w test_id).
      rewrite Hf. unfold kill_series. rewrite Hp.
      unfold mbind, Cmd_bind. cbn [get_world fst].
      change (os_killpg (add_signals w sigs) p) with (os_killpg w p).
      destruct (os_killpg w p); simpl in He; try discriminate;
        injection He as <-; reflexivity. }
    rewrite Hrun. repeat split.
  - intros pre n post objs s [w1 out1] objs1 Hpre Hmiss.
    rewrite for_each_app, Hpre. cbn [for_each].
    unfold mbind at 1, Cmd_bind at 1.
    unfold plugin_missing in Hmiss. cbn [fst] in Hmiss.
    unfold cancel_test, mbind, Cmd_bind. cbn [get_world fst].
    destruct (TestRun_load w1 n) as [test|]; [|discriminate].
    destruct (get_plugin w1 (scheduler test)); [discriminate | reflexivity].
Qed.

(** ** One run named on the command line *)

Lemma run_single_test w args test_id n :
  args_tests args = [test_id] →
  String.prefix "s" test_id = false →
  py_int test_id = Some n →
  run w args = finish (cancel_phase [n] args (w, [])).
Proof.
  intros Ht Hs Hi. unfold run, run_body, default_tests. rewrite Ht.
  simpl for_each. unfold resolve_id. rewrite Hs, Hi. reflexivity.
Qed.

Lemma run_single_skip w args test_id n test sched :
  args_tests args = [test_id] →
  String.prefix "s" test_id = false →
  py_int test_id = Some n →
  TestRun_load w n = Some test →
  get_plugin w (scheduler test) = Some sched →
  cancellable (state (current (status test))) = false →
  run w args =
    (w,
     TestNotCancellable n (state (current (status test)))
       :: table_of args n (current (status test)),
     Return 0).
Proof.
  intros Ht Hs Hi Hload Hplug Hst.
  rewrite (run_single_test w args test_id n Ht Hs Hi).
  unfold cancel_phase. simpl for_each. unfold mbind, Cmd_bind.
  rewrite (cancel_test_skip w [] [] n test sched Hload Hplug Hst).
  unfold table_of, mret, Cmd_ret. simpl.
  destruct (args_status args); simpl; [|reflexivity].
  rewrite Hload. reflexivity.
Qed.


(** C3.  A run in a terminal state (COMPLETE, CANCELLED or ERROR): the
    pass of the second loop over it leaves the world as it was, so no
    scheduler is called and no ledger entry is added, and it reports the
    state found; cancelling it from the command line any number of times
    leaves the world unchanged, and each call prints that state and
    returns 0. *)
Theorem cancel_terminal_is_noop w args test_id n test sched :
  args_tests args = [test_id] →
  String.prefix "s" test_id = false →
  py_int test_id = Some n →
  TestRun_load w n = Some test →
  get_plugin w (scheduler test) = Some sched →
  STATES.terminal (state (current (status test))) = true →
  (∀ objs out,
     cancel_test n objs (w, out) =
       ((w, out ++ [TestNotCancellable n (state (current (status test)))]),
        inr (objs ++ [n]))) ∧
  ∀ k : nat,
    Nat.iter k (λ w', (run w' args).1.1) w = w ∧
    run (Nat.iter k (λ w', (run w' args).1.1) w) args =
      (w,
       TestNotCancellable n (state (current (status test)))
         :: table_of args n (current (status test)),
       Return 0).
Proof.
  intros Ht Hs Hi Hload Hplug Hterm.
  pose proof (terminal_not_cancellable _ Hterm) as Hst.
  pose proof (run_single_skip w args test_id n test sched
                Ht Hs Hi Hload Hplug Hst) as Hrun.
  split.
  - intros objs out. eapply cancel_test_skip; eassumption.
  - assert (Hiter : ∀ k, Nat.iter k (λ w', (run w' args).1.1) w = w).
    { induction k as [|k IH]; simpl; [reflexivity|].
      rewrite IH, Hrun. reflexivity. }
    intros k. split; [apply Hiter|]. rewrite Hiter. exact Hrun.
Qed.

(** C4, amended.  A run whose current state is CREATED is not cancelled:
    the pass over it leaves the world as it was (no scheduler call, no
    ledger entry, no completion marker) and reports that the run could not
    be cancelled in state CREATED; the command returns 0. *)
Theorem cancel_created_is_skipped w args test_id n test sched :
  args_tests args = [test_id] →
  String.prefix "s" test_id = false →
  py_int test_id = Some n →
  TestRun_load w n = Some test →
  get_plugin w (scheduler test) = Some sched →
  state (current (status test)) = STATES.CREATED →
  (∀ objs out,
     cancel_test n objs (w, out) =
       ((w, out ++ [TestNotCancellable n STATES.CREATED]),
        inr (objs ++ [n]))) ∧
  run w args =
    (w,
     TestNotCancellable n STATES.CREATED
       :: table_of args n (current (status test)),
     Return 0).
Proof.
  intros Ht Hs Hi Hload Hplug Hcr.
  assert (Hst : cancellable (state (current (status test))) = false)
    by (rewrite Hcr; reflexivity).
  split.
  - intros objs out. rewrite <- Hcr. eapply cancel_test_skip; eassumption.
  - rewrite <- Hcr.
    exact (run_single_skip w args test_id n test sched
             Ht Hs Hi Hload Hplug Hst).
Qed.

(** C7, amended.  When no signal is refused, the first loop ends with the
    flat list of the expansions of the identifiers, in the order of the
    identifiers: a series gives its members, a run id gives itself, and an
    id is in the list as often as it is named.  The runs are not touched. *)
Theorem resolution_is_flat_in_order w ids :
  existsb (kill_refused w) ids = false →
  ∃ s,
    for_each resolve_id ids [] (w, []) = (s, resolved_list w ids) ∧
    test_runs s.1 = test_runs w.
Proof.
  intros Hk.
  destruct (resolve_loop_outcome w ids [] [] [])
    as (sigs & out & r & E & _ & _ & Hr).
  rewrite add_signals_nil in E.
  exists (add_signals w sigs, out). rewrite E, (Hr Hk).
  split; reflexivity.
Qed.

(** ** No identifier on the command line *)

(** C9.  Without identifiers and without [--all], [run] reads the latest
    series of the user: when one is recorded the call is the call with
    that series id given, and when none is recorded nothing is touched,
    nothing is printed and 0 is returned. *)
Theorem latest_series_by_default w st js :
  run w (mkArgs [] false st js) =
    match load_user_series_id w with
    | Some series_id => run w (mkArgs [series_id] false st js)
    | None => (w, [], Return 0)
    end.
Proof.
  unfold run, run_body, default_tests. simpl args_tests. simpl args_all.
  destruct (load_user_series_id w) as [sid|]; [reflexivity|].
  destruct st; reflexivity.
Qed.

Lemma own_unfinished_spec user_id dirs name :
  name ∈ own_unfinished user_id dirs ↔
  ∃ test, (name, test) ∈ dirs ∧ st_uid test = user_id
          ∧ RUN_COMPLETE test = false.
Proof using Type.
  clear py_int id_path.
  induction dirs as [|[nm d] dirs IH]; simpl.
  - split; [intros H; inversion H|].
    intros (test & H & _). inversion H.
  - assert (Hhere : (name ∈ (if decide (st_uid d = user_id)
                      then if negb (RUN_COMPLETE d)
                           then nm :: own_unfinished user_id dirs
                           else own_unfinished user_id dirs
                      else own_unfinished user_id dirs)) ↔
             (name = nm ∧ st_uid d = user_id ∧ RUN_COMPLETE d = false)
             ∨ name ∈ own_unfinished user_id dirs).
    { destruct (decide (st_uid d = user_id)) as [Hu|Hu];
        [destruct (RUN_COMPLETE d) eqn:Hc; simpl|].
      - split; [tauto | intros [(_ & _ & ?)|?]; [discriminate | assumption]].
      - rewrite elem_of_cons. tauto.
      - split; [tauto | intros [(_ & ? & _)|?]; [contradiction | assumption]]. }
    rewrite Hhere, IH. split.
    + intros [(-> & Hu & Hc) | (test & Hin & Hu & Hc)].
      * exists d. split; [left | split; assumption].
      * exists test. split; [right; exact Hin | split; assumption].
    + intros (test & Hin & Hu & Hc).
      apply elem_of_cons in Hin as [[= -> ->] | Hin].
      * left. split; [reflexivity | split; assumption].
      * right. exists test. split; [exact Hin | split; assumption].
Qed.

Lemma own_unfinished_sublist user_id dirs :
  sublist (own_unfinished user_id dirs) dirs.*1.
Proof using Type.
  clear py_int id_path.
  induction dirs as [|[nm d] dirs IH]; simpl; [constructor|].
  destruct (decide (st_uid d = user_id));
    [destruct (negb (RUN_COMPLETE d))|];
    (by apply sublist_skip) || (by apply sublist_cons).
Qed.

(** C10.  Without identifiers and with [--all], the identifiers [run]
    gives itself are the names of the directories under [test_runs] whose
    owner is the effective user and that hold no [RUN_COMPLETE] file, each
    name once: a directory of another user or with the marker is never
    among them. *)
Theorem cancel_all_selection w st js :
  NoDup (default_tests w (mkArgs [] true st js)) ∧
  ∀ name,
    name ∈ default_tests w (mkArgs [] true st js) ↔
    ∃ test, test_runs w !! name = Some test
            ∧ st_uid test = euid w ∧ RUN_COMPLETE test = false.
Proof using Type.
  clear py_int id_path.
  unfold default_tests. simpl args_tests. simpl args_all. split.
  - apply (sublist_NoDup _ (map_to_list (test_runs w)).*1);
      [apply NoDup_fst_map_to_list | apply own_unfinished_sublist].
  - intros name. rewrite own_unfinished_spec.
    split; intros (test & H & Hrest); exists test;
      (split; [|exact Hrest]).
    + apply elem_of_map_to_list. exact H.
    + apply elem_of_map_to_list. exact H.
Qed.

(** ** A failing identifier *)

(** C1, amended.  A resolution failure ends the command at the identifier
    that fails.  When an identifier of the batch is malformed or names no
    series, the command ends in the first loop: no run is loaded,
    cancelled or reported, whatever the other identifiers are, and the
    command does not return 0 (it returns [EINVAL] when no signal is
    refused).  When a run cannot be loaded in the second loop, the loop
    ends there with [EINVAL]: the runs before it in the list have been
    handled, the runs after it are not looked at. *)
Theorem resolution_failure_aborts :
  (∀ w args,
     mapM (expansion w) (default_tests w args) = None →
     test_runs (run w args).1.1 = test_runs w ∧
     cancelled_jobs (run w args).1.1 = cancelled_jobs w ∧
     (∀ n, existsb (reports n) (run w args).1.2 = false) ∧
     (run w args).2 ≠ Return 0 ∧
     (existsb (kill_refused w) (default_tests w args) = false →
      (run w args).2 = Return EINVAL)) ∧
  (∀ pre n post objs s s1 objs1,
     for_each cancel_test pre objs s = (s1, inr objs1) →
     loadable s1.1 n = false →
     for_each cancel_test (pre ++ n :: post) objs s =
       ((s1.1, s1.2 ++ [TestNotFound n]), inl (Return EINVAL))).
Proof.
  split.
  - intros w args Hnone.
    destruct (resolve_loop_outcome w (default_tests w args) [] [] [])
      as (sigs & out & r & E & Hrep & Hex & Hr).
    rewrite add_signals_nil in E.
    destruct (Hex Hnone) as (e & -> & He).
    assert (Hrun : run w args = (add_signals w sigs, out, e)).
    { unfold run, run_body, mbind at 1, Cmd_bind at 1. rewrite E.
      reflexivity. }
    rewrite Hrun. simpl.
    split; [reflexivity|]. split; [reflexivity|].
    split; [intros n; rewrite Hrep; reflexivity|].
    split; [exact He|].
    intros Hk. specialize (Hr Hk). rewrite Hnone in Hr. congruence.
  - intros pre n post objs s [w1 out1] objs1 Hpre Hl.
    rewrite for_each_app, Hpre. cbn [for_each].
    unfold mbind at 1, Cmd_bind at 1.
    rewrite cancel_test_not_found by exact Hl. reflexivity.
Qed.


(** ** What a call of [run] keeps *)

Lemma for_each_invariant {A B} (body : A → B → Cmd B) (I : Proc → Prop) xs :
  (∀ x acc s, I s → I (body x acc s).1) →
  ∀ acc s, I s → I (for_each body xs acc s).1.
Proof.
  intros Hstep. induction xs as [|x xs IH]; intros acc s Hs; simpl.
  - exact Hs.
  - unfold mbind, Cmd_bind. specialize (Hstep x acc s Hs).
    destruct (body x acc s) as [s1 [e|acc1]]; [exact Hstep|].
    apply IH. exact Hstep.
Qed.

Lemma same_host_refl w : same_host w w.
Proof. repeat split. Qed.

Lemma same_host_trans w1 w2 w3 :
  same_host w1 w2 → same_host w2 w3 → same_host w1 w3.
Proof.
  intros (A1 & A2 & A3 & A4 & A5) (B1 & B2 & B3 & B4 & B5).
  repeat split; congruence.
Qed.

Lemma dir_grows_refl d : dir_grows d d.
Proof.
  repeat split; try tauto. exists []. rewrite app_nil_r. reflexivity.
Qed.

Lemma dir_grows_trans d1 d2 d3 :
  dir_grows d1 d2 → dir_grows d2 d3 → dir_grows d1 d3.
Proof.
  intros (A1 & A2 & A3 & (m1 & A4) & A5 & A6) (B1 & B2 & B3 & (m2 & B4) & B5 & B6).
  split; [congruence|]. split; [congruence|]. split; [congruence|].
  split; [exists (m1 ++ m2); rewrite B4, A4, app_assoc; reflexivity|].
  split; [tauto|].
  intros Hc. specialize (A6 Hc). subst d2. apply B6, Hc.
Qed.

Lemma runs_grow_same w w' : test_runs w' = test_runs w → runs_grow w w'.
Proof.
  intros E name. rewrite E. destruct (test_runs w !! name) as [d|];
    [|reflexivity].
  exists d. split; [reflexivity | apply dir_grows_refl].
Qed.

Lemma runs_grow_trans w1 w2 w3 :
  runs_grow w1 w2 → runs_grow w2 w3 → runs_grow w1 w3.
Proof.
  intros H12 H23 name. specialize (H12 name). specialize (H23 name).
  destruct (test_runs w1 !! name) as [d1|].
  - destruct H12 as (d2 & E2 & G12). rewrite E2 in H23.
    destruct H23 as (d3 & E3 & G23). exists d3.
    split; [exact E3 | eapply dir_grows_trans; eassumption].
  - rewrite H12 in H23. exact H23.
Qed.

Lemma dir_grows_cancelled d answer :
  cancellable (state (current (status d))) = true →
  dir_grows d (cancelled_dir d answer).
Proof.
  intros Hc. split; [reflexivity|]. split; [reflexivity|].
  split; [reflexivity|]. split; [exists [answer]; reflexivity|].
  split; [reflexivity|]. congruence.
Qed.

Lemma runs_grow_cancelled w n test answer :
  TestRun_load w n = Some test →
  cancellable (state (current (status test))) = true →
  runs_grow w (cancelled_world w n test answer).
Proof.
  intros Hload Hc name. simpl.
  destruct (decide (id_path n = name)) as [<-|Hne].
  - unfold TestRun_load in Hload. rewrite Hload, lookup_insert_eq.
    eexists. split; [reflexivity | apply dir_grows_cancelled, Hc].
  - rewrite lookup_insert_ne by exact Hne.
    destruct (test_runs w !! name) as [d|]; [|reflexivity].
    exists d. split; [reflexivity | apply dir_grows_refl].
Qed.

Lemma traces_match_refl s : traces_match s s.
Proof. exists []. rewrite !app_nil_r. repeat split. Qed.

Lemma traces_match_trans s1 s2 s3 :
  traces_match s1 s2 → traces_match s2 s3 → traces_match s1 s3.
Proof.
  intros (o1 & A1 & A2 & A3) (o2 & B1 & B2 & B3). exists (o1 ++ o2).
  unfold cancelled_ids, killed_groups in *. rewrite !omap_app.
  rewrite B1, B2, B3, A1, A2, A3, !app_assoc. repeat split.
Qed.

(** A step that prints one line which names no cancelled run and no killed
    group, and leaves the traces alone. *)
Lemma traces_match_quiet w w' out m :
  cancelled_jobs w' = cancelled_jobs w → signalled w' = signalled w →
  cancelled_ids [m] = [] → killed_groups [m] = [] →
  traces_match (w, out) (w', out ++ [m]).
Proof.
  intros E1 E2 C K. exists [m]. cbn [fst snd].
  rewrite C, K, E1, E2, !app_nil_r. repeat split.
Qed.

Lemma evolves_refl s : evolves s s.
Proof.
  split; [apply same_host_refl|]. split; [apply runs_grow_same; reflexivity|].
  split; [apply traces_match_refl|].
  intros outs n E Hn.
  assert (outs = []) as ->.
  { apply (app_inv_head s.2). rewrite app_nil_r. symmetry. exact E. }
  inversion Hn.
Qed.

Lemma evolves_trans s1 s2 s3 : evolves s1 s2 → evolves s2 s3 → evolves s1 s3.
Proof.
  intros (A1 & A2 & A3 & A4) (B1 & B2 & B3 & B4).
  split; [eapply same_host_trans; eassumption|].
  split; [eapply runs_grow_trans; eassumption|].
  split; [eapply traces_match_trans; eassumption|].
  intros outs n E Hn.
  destruct A3 as (o1 & E1 & _), B3 as (o2 & E2 & _).
  assert (outs = o1 ++ o2) as ->.
  { apply (app_inv_head s1.2). rewrite <- E, E2, E1, app_assoc. reflexivity. }
  unfold cancelled_ids in Hn. rewrite omap_app in Hn.
  apply elem_of_app in Hn as [Hn|Hn].
  - exact (A4 o1 n E1 Hn).
  - destruct (B4 o2 n E2 Hn) as (d2 & L2 & C2).
    specialize (A2 (id_path n)). unfold TestRun_load in *.
    destruct (test_runs s1.1 !! id_path n) as [d1|].
    + exists d1. split; [reflexivity|].
      destruct A2 as (d2' & L2' & G).
      destruct (cancellable (state (current (status d1)))) eqn:C1;
        [reflexivity|].
      destruct G as (_ & _ & _ & _ & _ & Hsame).
      specialize (Hsame C1). congruence.
    + congruence.
Qed.

Lemma evolves_print w out m :
  quiet m = true → evolves (w, out) (w, out ++ [m]).
Proof.
  intros Hq.
  assert (C : cancelled_ids [m] = []) by (destruct m; try reflexivity; discriminate).
  assert (K : killed_groups [m] = []) by (destruct m; try reflexivity; discriminate).
  split; [apply same_host_refl|]. split; [apply runs_grow_same; reflexivity|].
  split; [apply traces_match_quiet; try reflexivity; assumption|].
  intros outs n E Hn. cbn [fst snd] in E.
  apply app_inv_head in E. subst outs. rewrite C in Hn. inversion Hn.
Qed.

Lemma evolves_kill w out p test_id :
  evolves (w, out) (log_signal w p, out ++ [KilledProcess p test_id]).
Proof.
  split; [repeat split|]. split; [apply runs_grow_same; reflexivity|].
  split.
  - exists [KilledProcess p test_id]. cbn. rewrite app_nil_r. repeat split.
  - intros outs n E Hn. cbn [fst snd] in E.
    apply app_inv_head in E. subst outs. inversion Hn as [|??? Hn']; inversion Hn'.
Qed.

Lemma evolves_cancel w out n test answer :
  TestRun_load w n = Some test →
  cancellable (state (current (status test))) = true →
  evolves (w, out) (cancelled_world w n test answer, out ++ [TestCancelled n]).
Proof.
  intros Hload Hc.
  split; [repeat split|]. split; [apply runs_grow_cancelled; assumption|].
  split.
  - exists [TestCancelled n]. cbn. rewrite app_nil_r. repeat split.
  - intros outs k E Hk. cbn [fst snd] in E.
    apply app_inv_head in E. subst outs.
    apply list_elem_of_singleton in Hk as ->.
    exists test. split; assumption.
Qed.

Lemma resolve_id_evolves test_id tl s :
  evolves s (resolve_id test_id tl s).1.
Proof.
  destruct s as [w out]. unfold resolve_id.
  destruct (String.prefix "s" test_id).
  - unfold mbind at 1, Cmd_bind at 1. cbn [get_world fst snd].
    destruct (find_series w test_id) as [[|]|sr].
    + apply evolves_print. reflexivity.
    + apply evolves_print. reflexivity.
    + unfold kill_series. destruct (truthy (pgid sr)) as [p|].
      * unfold mbind, Cmd_bind. cbn [get_world fst snd].
        destruct (os_killpg w p); cbn.
        -- apply evolves_kill.
        -- apply evolves_print. reflexivity.
        -- apply evolves_refl.
        -- apply evolves_refl.
        -- apply evolves_refl.
      * apply evolves_refl.
  - destruct (py_int test_id).
    + apply evolves_refl.
    + apply evolves_print. reflexivity.
Qed.

Lemma cancel_test_evolves n objs s :
  evolves s (cancel_test n objs s).1.
Proof.
  destruct s as [w out].
  destruct (TestRun_load w n) as [test|] eqn:Hload.
  - destruct (get_plugin w (scheduler test)) as [sched|] eqn:Hplug.
    + destruct (cancellable (state (current (status test)))) eqn:Hc.
      * rewrite (cancel_test_cancel w out objs n test sched Hload Hplug Hc).
        apply evolves_cancel; assumption.
      * rewrite (cancel_test_skip w out objs n test sched Hload Hplug Hc).
        apply evolves_print. reflexivity.
    + unfold cancel_test, mbind, Cmd_bind. cbn [get_world fst snd].
      rewrite Hload, Hplug. apply evolves_refl.
  - rewrite cancel_test_not_found by (unfold loadable; rewrite Hload; reflexivity).
    apply evolves_print. reflexivity.
Qed.

Lemma for_each_evolves {A B} (body : A → B → Cmd B) xs acc s :
  (∀ x acc s, evolves s (body x acc s).1) →
  evolves s (for_each body xs acc s).1.
Proof.
  intros Hstep.
  apply (for_each_invariant body (evolves s)); [|apply evolves_refl].
  intros x a s1 H1. eapply evolves_trans; [exact H1 | apply Hstep].
Qed.

Lemma cancel_phase_evolves tl args s :
  evolves s (cancel_phase tl args s).1.
Proof.
  unfold cancel_phase, mbind at 1, Cmd_bind at 1.
  pose proof (for_each_evolves cancel_test tl [] s
                (λ x a s, cancel_test_evolves x a s)) as H.
  destruct (for_each cancel_test tl [] s) as [s1 [e|objs]]; [exact H|].
  destruct (args_status args && negb (bool_decide (objs = []))).
  - eapply evolves_trans; [exact H|]. destruct s1 as [w1 out1].
    apply evolves_print. reflexivity.
  - exact H.
Qed.

Lemma run_evolves w args : evolves (w, []) (run w args).1.
Proof.
  unfold run, run_body, mbind at 1, Cmd_bind at 1.
  pose proof (for_each_evolves resolve_id (default_tests w args) [] (w, [])
                (λ x a s, resolve_id_evolves x a s)) as H.
  destruct (for_each resolve_id (default_tests w args) [] (w, []))
    as [s1 [e|tl]]; [exact H|].
  pose proof (cancel_phase_evolves tl args s1) as H2.
  destruct (cancel_phase tl args s1) as [s2 [e|c]];
    (eapply evolves_trans; [exact H | exact H2]).
Qed.

(** X2.  [run] creates no run directory and removes none. *)
Theorem run_keeps_the_set_of_runs w args :
  dom (test_runs (run w args).1.1) = dom (test_runs w).
Proof.
  destruct (run_evolves w args) as (_ & Hg & _).
  apply set_eq. intros name. rewrite !elem_of_dom.
  specialize (Hg name). cbn [fst] in Hg.
  destruct (test_runs w !! name) as [d|].
  - destruct Hg as (d' & -> & _). split; eauto.
  - rewrite Hg. reflexivity.
Qed.

(** X3.  Whatever the batch and however the call ends, a run directory
    keeps its owner and its scheduler, its ledger only gains entries at the
    end, and a completion marker that was there stays. *)
Theorem run_only_appends_to_ledgers w args name d :
  test_runs w !! name = Some d →
  ∃ d' more,
    test_runs (run w args).1.1 !! name = Some d' ∧
    st_uid d' = st_uid d ∧ scheduler d' = scheduler d ∧
    entries (status d') = entries (status d) ++ more ∧
    (RUN_COMPLETE d = true → RUN_COMPLETE d' = true).
Proof.
  intros Hd. destruct (run_evolves w args) as (_ & Hg & _).
  specialize (Hg name). cbn [fst] in Hg. rewrite Hd in Hg.
  destruct Hg as (d' & E & Hu & Hs & Hc & (more & Ha) & Hm & _).
  exists d', more. split; [exact E|]. split; [exact Hu|].
  split; [exact Hs|]. split; [|exact Hm].
  unfold entries. rewrite Hc, Ha. reflexivity.
Qed.

(** X4.  A run whose current state is neither RUNNING nor SCHEDULED is left
    exactly as it is by any call of [run], whatever the identifiers and how
    often they name it. *)
Theorem uncancellable_runs_are_left_alone w args name d :
  test_runs w !! name = Some d →
  cancellable (state (current (status d))) = false →
  test_runs (run w args).1.1 !! name = Some d.
Proof.
  intros Hd Hc. destruct (run_evolves w args) as (_ & Hg & _).
  specialize (Hg name). cbn [fst] in Hg. rewrite Hd in Hg.
  destruct Hg as (d' & E & _ & _ & _ & _ & _ & Hsame).
  rewrite E, (Hsame Hc). reflexivity.
Qed.

(** X5.  What [run] prints is what it did: the runs handed to a scheduler's
    [cancel_job] are the runs of the lines "Test n cancelled", in order, and
    the process groups that got the signal are those of the lines "Killed
    process p". *)
Theorem run_prints_what_it_did w args :
  cancelled_jobs (run w args).1.1
    = cancelled_jobs w ++ cancelled_ids (run w args).1.2 ∧
  signalled (run w args).1.1
    = signalled w ++ killed_groups (run w args).1.2.
Proof.
  destruct (run_evolves w args) as (_ & _ & (outs & E & Hc & Hk) & _).
  cbn [fst snd] in *. rewrite E. split; assumption.
Qed.

(** X6.  A run that [run] reports as cancelled was, when the call began, a
    loadable run in state RUNNING or SCHEDULED. *)
Theorem cancelled_runs_were_cancellable w args n :
  n ∈ cancelled_ids (run w args).1.2 →
  ∃ d, TestRun_load w n = Some d ∧
       (state (current (status d)) = STATES.RUNNING
        ∨ state (current (status d)) = STATES.SCHEDULED).
Proof.
  intros Hn. destruct (run_evolves w args) as (_ & _ & _ & Hc).
  destruct (Hc (run w args).1.2 n eq_refl Hn) as (d & Hl & Hst).
  exists d. split; [exact Hl | apply cancellable_spec, Hst].
Qed.

(** The first loop ends with the expansions, with [EINVAL], or with the
    exception of a refused signal. *)
Lemma resolve_loop_exits w ids : ∀ tl sigs out,
  ∃ sigs' out' r,
    for_each resolve_id ids tl (add_signals w sigs, out) =
      ((add_signals w sigs', out'), r) ∧
    ((∃ e, r = inl (Raise e)) ∨
     r = match mapM (expansion w) ids with
         | Some ls => inr (tl ++ concat ls)
         | None => inl (Return EINVAL)
         end).
Proof.
  induction ids as [|x ids IH]; intros tl sigs out.
  - exists sigs, out, (inr tl). simpl. rewrite app_nil_r.
    split; [reflexivity | right; reflexivity].
  - destruct (resolve_id_step w sigs out tl x)
      as (sigs1 & out1 & r1 & E1 & _ & Hor & _).
    simpl for_each. unfold mbind at 1, Cmd_bind at 1. rewrite E1.
    destruct Hor as [(e & ->) | ->].
    + exists sigs1, out1, (inl (Raise e)).
      split; [reflexivity | left; exists e; reflexivity].
    + destruct (expansion w x) as [l|] eqn:Hx.
      * destruct (IH (tl ++ l) sigs1 out1) as (sigs2 & out2 & r2 & E2 & Hor2).
        exists sigs2, out2, r2. split; [exact E2|].
        rewrite (mapM_cons_Some _ _ _ _ Hx).
        destruct Hor2 as [(e & ->) | ->]; [left; exists e; reflexivity | right].
        destruct (mapM (expansion w) ids); simpl;
          [rewrite app_assoc|]; reflexivity.
      * exists sigs1, out1, (inl (Return EINVAL)).
        split; [reflexivity | right].
        rewrite (mapM_cons_None _ _ _ Hx). reflexivity.
Qed.

Lemma run_unfold w args :
  run w args =
    finish (match for_each resolve_id (default_tests w args) [] (w, []) with
            | (s, inl e) => (s, inl e)
            | (s, inr test_list) => cancel_phase test_list args s
            end).
Proof. reflexivity. Qed.

(** ** A batch of distinct runs *)

Lemma filter_agree_on {A} (P Q : A → Prop)
    `{∀ x, Decision (P x)} `{∀ x, Decision (Q x)} (l : list A) :
  (∀ x, x ∈ l → (P x ↔ Q x)) → filter P l = filter Q l.
Proof.
  induction l as [|x l IH]; intros Hpq; [reflexivity|].
  rewrite !filter_cons.
  rewrite IH by (intros y Hy; apply Hpq; right; exact Hy).
  destruct (decide (P x)) as [Hp|Hp], (decide (Q x)) as [Hq|Hq];
    try reflexivity; exfalso; specialize (Hpq x (list_elem_of_here _ _)); tauto.
Qed.

(** The pass of the second loop over a run that loads and has its
    scheduler, told by what it leaves. *)
Lemma cancel_test_effect w out objs n d :
  TestRun_load w n = Some d →
  plugin_missing w n = false →
  ∃ w',
    cancel_test n objs (w, out) =
      ((w', out ++ [report_line w n]), inr (objs ++ [n])) ∧
    plugins w' = plugins w ∧
    test_runs w' !! id_path n = Some (after_cancel w n d) ∧
    (∀ name, name ≠ id_path n → test_runs w' !! name = test_runs w !! name) ∧
    cancelled_jobs w' =
      cancelled_jobs w ++ (if will_cancel w n then [n] else []).
Proof.
  intros Hload Hp. unfold plugin_missing in Hp. rewrite Hload in Hp.
  unfold report_line, after_cancel, will_cancel. rewrite Hload.
  destruct (get_plugin w (scheduler d)) as [sched|] eqn:Hplug; [|discriminate].
  destruct (cancellable (state (current (status d)))) eqn:Hc.
  - exists (cancelled_world w n d (cancel_job sched n d)).
    split; [apply cancel_test_cancel; assumption|].
    split; [reflexivity|].
    split; [simpl; apply lookup_insert_eq|].
    split; [|reflexivity].
    intros name Hne. simpl. apply lookup_insert_ne. congruence.
  - exists w. split; [eapply cancel_test_skip; eassumption|].
    split; [reflexivity|]. split; [exact Hload|].
    split; [reflexivity|]. rewrite app_nil_r. reflexivity.
Qed.

Lemma cancel_loop_distinct ns : ∀ objs w out,
  NoDup (id_path <$> ns) →
  (∀ n, n ∈ ns → loadable w n = true) →
  (∀ n, n ∈ ns → plugin_missing w n = false) →
  ∃ w' out',
    for_each cancel_test ns objs (w, out) = ((w', out'), inr (objs ++ ns)) ∧
    plugins w' = plugins w ∧
    (∀ n d, n ∈ ns → TestRun_load w n = Some d →
            TestRun_load w' n = Some (after_cancel w n d)) ∧
    (∀ name, name ∉ id_path <$> ns →
             test_runs w' !! name = test_runs w !! name) ∧
    cancelled_jobs w' =
      cancelled_jobs w ++ filter (λ n, will_cancel w n = true) ns ∧
    out' = out ++ (report_line w <$> ns).
Proof.
  induction ns as [|n ns IH]; intros objs w out Hnd Hl Hp.
  - exists w, out. simpl. rewrite !app_nil_r.
    split; [reflexivity|]. split; [reflexivity|].
    split; [intros n d Hn; inversion Hn|]. repeat split.
  - rewrite fmap_cons in Hnd. apply NoDup_cons in Hnd as [Hfresh Hnd].
    assert (Hln : loadable w n = true) by (apply Hl; left).
    unfold loadable in Hln.
    destruct (TestRun_load w n) as [d|] eqn:Hload; [|discriminate].
    destruct (cancel_test_effect w out objs n d Hload (Hp n (list_elem_of_here _ _)))
      as (w1 & E1 & Hpl1 & Hn1 & Hoff1 & Hj1).
    assert (Hsame : ∀ m, m ∈ ns → TestRun_load w1 m = TestRun_load w m).
    { intros m Hm. unfold TestRun_load. apply Hoff1. intros Heq.
      apply Hfresh. rewrite <- Heq. apply list_elem_of_fmap_2, Hm. }
    destruct (IH (objs ++ [n]) w1 (out ++ [report_line w n]) Hnd)
      as (w2 & out2 & E2 & Hpl2 & Hin2 & Hoff2 & Hj2 & Ho2).
    { intros m Hm. unfold loadable. rewrite (Hsame m Hm).
      apply (Hl m). right. exact Hm. }
    { intros m Hm. unfold plugin_missing, get_plugin.
      rewrite (Hsame m Hm), Hpl1. apply (Hp m). right. exact Hm. }
    exists w2, out2. simpl for_each. unfold mbind at 1, Cmd_bind at 1.
    rewrite E1, E2, <- app_assoc.
    split; [reflexivity|]. split; [congruence|].
    assert (Hwc : ∀ m, m ∈ ns → will_cancel w1 m = will_cancel w m).
    { intros m Hm. unfold will_cancel. rewrite (Hsame m Hm). reflexivity. }
    split; [|split; [|split]].
    + intros m dm Hm Hlm. apply elem_of_cons in Hm as [->|Hm].
      * unfold TestRun_load. rewrite Hoff2 by exact Hfresh.
        rewrite Hn1. congruence.
      * rewrite (Hin2 m dm Hm) by (rewrite (Hsame m Hm); exact Hlm).
        unfold after_cancel, get_plugin. rewrite Hpl1. reflexivity.
    + intros name Hname. rewrite fmap_cons in Hname.
      apply not_elem_of_cons in Hname as [Hne Hname].
      rewrite (Hoff2 name Hname). apply Hoff1, Hne.
    + rewrite Hj2, Hj1, <- app_assoc. f_equal.
      rewrite filter_cons.
      rewrite (filter_agree_on (λ m, will_cancel w1 m = true)
                 (λ m, will_cancel w m = true) ns)
        by (intros m Hm; rewrite (Hwc m Hm); reflexivity).
      destruct (will_cancel w n) eqn:Hw.
      * rewrite decide_True by reflexivity. reflexivity.
      * rewrite decide_False by discriminate. reflexivity.
    + rewrite Ho2, <- app_assoc. simpl. f_equal. f_equal.
      apply Forall_fmap_ext_1, Forall_forall. intros m Hm.
      unfold report_line. rewrite (Hsame m Hm). reflexivity.
Qed.

Lemma existsb_false_elem {A} (f : A → bool) l :
  existsb f l = false → ∀ x, x ∈ l → f x = false.
Proof.
  induction l as [|y l IH]; intros H x Hx; [inversion Hx|].
  simpl in H. apply orb_false_iff in H as [Hy Hl].
  apply elem_of_cons in Hx as [->|Hx]; [exact Hy | exact (IH Hl x Hx)].
Qed.

Lemma forallb_true_elem {A} (f : A → bool) l :
  forallb f l = true → ∀ x, x ∈ l → f x = true.
Proof.
  induction l as [|y l IH]; intros H x Hx; [inversion Hx|].
  simpl in H. apply andb_true_iff in H as [Hy Hl].
  apply elem_of_cons in Hx as [->|Hx]; [exact Hy | exact (IH Hl x Hx)].
Qed.

(** The whole command on a batch that resolves to distinct runs, all of
    which load and have their scheduler. *)
Lemma run_distinct w args ls :
  mapM (expansion w) (default_tests w args) = Some ls →
  existsb (kill_refused w) (default_tests w args) = false →
  NoDup (id_path <$> concat ls) →
  forallb (loadable w) (concat ls) = true →
  existsb (plugin_missing w) (concat ls) = false →
  ∃ w' pre post,
    run w args = (w', pre ++ (report_line w <$> concat ls) ++ post, Return 0) ∧
    same_host w w' ∧
    (∀ n d, n ∈ concat ls → TestRun_load w n = Some d →
            TestRun_load w' n = Some (after_cancel w n d)) ∧
    (∀ name, name ∉ id_path <$> concat ls →
             test_runs w' !! name = test_runs w !! name) ∧
    cancelled_jobs w' =
      cancelled_jobs w ++ filter (λ n, will_cancel w n = true) (concat ls).
Proof.
  intros Hm Hk Hnd Hl Hp.
  destruct (resolve_loop_outcome w (default_tests w args) [] [] [])
    as (sigs & out & r & E & _ & _ & Hr).
  rewrite add_signals_nil in E. rewrite (Hr Hk), Hm in E. cbn [app] in E.
  destruct (cancel_loop_distinct (concat ls) [] (add_signals w sigs) out Hnd)
    as (w2 & out2 & E2 & Hpl & Hin & Hoff & Hj & Ho).
  { exact (forallb_true_elem _ _ Hl). }
  { exact (existsb_false_elem _ _ Hp). }
  assert (Hrun : ∃ post,
            run w args = (w2, out ++ (report_line w <$> concat ls) ++ post,
                          Return 0)).
  { rewrite run_unfold, E.
    unfold cancel_phase, mbind at 1, Cmd_bind at 1. rewrite E2. cbn [app].
    destruct (args_status args && negb (bool_decide (concat ls = []))).
    - eexists [_]. subst out2.
      unfold print_from_tests, mbind, Cmd_bind, fprint, get_world, finish.
      cbn [fst snd]. rewrite <- app_assoc. reflexivity.
    - exists []. subst out2. rewrite app_nil_r. reflexivity. }
  destruct Hrun as (post & Hrun).
  pose proof (run_evolves w args) as (Hhost & _). rewrite Hrun in Hhost.
  exists w2, out, post. split; [exact Hrun|].
  split; [exact Hhost|]. repeat split; assumption.
Qed.

(** X8.  A batch that resolves to distinct runs, all of which load and have
    their scheduler, with no signal refused: [run] returns 0; every run of
    the batch that was RUNNING or SCHEDULED has the answer of its scheduler
    as the one new ledger entry and its marker set, and every other run of
    the batch is as before; the runs outside the batch are untouched; the
    scheduler is asked once for each cancellable run, in the order of the
    batch; and each run has its line in the output, in that order. *)
Theorem distinct_batch_is_cancelled_run_by_run w args ls :
  mapM (expansion w) (default_tests w args) = Some ls →
  existsb (kill_refused w) (default_tests w args) = false →
  NoDup (id_path <$> concat ls) →
  forallb (loadable w) (concat ls) = true →
  existsb (plugin_missing w) (concat ls) = false →
  (run w args).2 = Return 0 ∧
  (∀ n d, n ∈ concat ls → TestRun_load w n = Some d →
          TestRun_load (run w args).1.1 n = Some (after_cancel w n d)) ∧
  (∀ name, name ∉ id_path <$> concat ls →
           test_runs (run w args).1.1 !! name = test_runs w !! name) ∧
  cancelled_jobs (run w args).1.1 =
    cancelled_jobs w ++ filter (λ n, will_cancel w n = true) (concat ls) ∧
  ∃ pre post,
    (run w args).1.2 = pre ++ (report_line w <$> concat ls) ++ post.
Proof.
  intros Hm Hk Hnd Hl Hp.
  destruct (run_distinct w args ls Hm Hk Hnd Hl Hp)
    as (w' & pre & post & -> & _ & Hin & Hoff & Hj).
  cbn [fst snd]. split; [reflexivity|]. split; [exact Hin|].
  split; [exact Hoff|]. split; [exact Hj|]. exists pre, post. reflexivity.
Qed.

(** ** Series *)

Lemma run_single_series w args test_id sr out1 :
  args_tests args = [test_id] →
  resolve_id test_id [] (w, []) = ((w, out1), inr (tests sr)) →
  run w args = finish (cancel_phase (tests sr) args (w, out1)).
Proof.
  intros Ht E. unfold run, run_body, default_tests. rewrite Ht.
  cbn [for_each]. unfold mbind at 1 2, Cmd_bind at 1 2. rewrite E.
  reflexivity.
Qed.

Lemma finish_cancel_phase tl args w out :
  signalled (finish (cancel_phase tl args (w, out))).1.1 = signalled w ∧
  ((finish (cancel_phase tl args (w, out))).2 = Return EINVAL →
   forallb (loadable w) tl = false) ∧
  (existsb (plugin_missing w) tl = false →
   forallb (loadable w) tl = true →
   (finish (cancel_phase tl args (w, out))).2 = Return 0).
Proof.
  destruct (cancel_phase_outcome tl args w out)
    as (w' & out' & r & -> & _ & Hsig & Hor & Hok).
  split; [destruct r; exact Hsig|]. split.
  - destruct Hor as [->| ->]; simpl; [discriminate|].
    destruct (forallb (loadable w) tl); [discriminate | reflexivity].
  - intros Hp Hl. rewrite (Hok Hp), Hl. reflexivity.
Qed.

(** The second loop over distinct runs that load and have their
    scheduler, as the command ends with it: the runs that were RUNNING or
    SCHEDULED hold the answer of their scheduler and the marker, the others
    are as they were, and each has its line. *)
Lemma members_are_cancelled tl args w out :
  NoDup (id_path <$> tl) →
  forallb (loadable w) tl = true →
  existsb (plugin_missing w) tl = false →
  (∀ n d sched,
     n ∈ tl → TestRun_load w n = Some d →
     get_plugin w (scheduler d) = Some sched →
     cancellable (state (current (status d))) = true →
     TestRun_load (finish (cancel_phase tl args (w, out))).1.1 n =
       Some (cancelled_dir d (cancel_job sched n d))) ∧
  (∀ n d,
     n ∈ tl → TestRun_load w n = Some d →
     cancellable (state (current (status d))) = false →
     TestRun_load (finish (cancel_phase tl args (w, out))).1.1 n = Some d) ∧
  cancelled_jobs (finish (cancel_phase tl args (w, out))).1.1 =
    cancelled_jobs w ++ filter (λ n, will_cancel w n = true) tl ∧
  ∃ post,
    (finish (cancel_phase tl args (w, out))).1.2 =
      out ++ (report_line w <$> tl) ++ post.
Proof.
  intros Hnd Hl Hp.
  destruct (cancel_loop_distinct tl [] w out Hnd)
    as (w2 & out2 & E2 & _ & Hin & _ & Hj & Ho).
  { exact (forallb_true_elem _ _ Hl). }
  { exact (existsb_false_elem _ _ Hp). }
  assert (Hfin : ∃ post,
            finish (cancel_phase tl args (w, out)) =
              (w2, out ++ (report_line w <$> tl) ++ post, Return 0)).
  { unfold cancel_phase, mbind at 1, Cmd_bind at 1. rewrite E2. cbn [app].
    destruct (args_status args && negb (bool_decide (tl = []))).
    - eexists [_]. subst out2.
      unfold print_from_tests, mbind, Cmd_bind, fprint, get_world, finish.
      cbn [fst snd]. rewrite <- app_assoc. reflexivity.
    - exists []. subst out2. rewrite app_nil_r. reflexivity. }
  destruct Hfin as (post & ->). cbn [fst snd].
  split; [|split; [|split; [exact Hj | exists post; reflexivity]]].
  - intros n d sched Hn Hd Hs Hc. rewrite (Hin n d Hn Hd).
    unfold after_cancel. rewrite Hs, Hc. reflexivity.
  - intros n d Hn Hd Hc. rewrite (Hin n d Hn Hd).
    unfold after_cancel. rewrite Hc.
    destruct (get_plugin w (scheduler d)); reflexivity.
Qed.

(** C5.  A series whose recorded process group is gone: [os.killpg]
    raises [ProcessLookupError], the handler prints a line, and the first
    loop goes on with the members of the series added to the list.  The
    command then is the second loop over the members; it sends no signal,
    it returns [EINVAL] only when a member cannot be loaded, and it
    returns 0 when every member loads and has its scheduler.  When the
    members are distinct runs as well, each of them is dealt with on its
    own: a member that was RUNNING or SCHEDULED is handed to its
    scheduler, whose answer is the new last entry of its ledger, and gets
    the completion marker; a member in another state is left as it was;
    the scheduler is asked for the cancellable members only, in the order
    of the series; and after the line about the process group the output
    has the line of each member, in that order. *)
Theorem dead_group_is_not_a_failure w args test_id sr p :
  args_tests args = [test_id] →
  String.prefix "s" test_id = true →
  find_series w test_id = inr sr →
  truthy (pgid sr) = Some p →
  os_killpg w p = NoSuchProcess →
  (∀ tl out,
     resolve_id test_id tl (w, out) =
       ((w, out ++ [UnableToKill test_id p]), inr (tl ++ tests sr))) ∧
  run w args =
    finish (cancel_phase (tests sr) args (w, [UnableToKill test_id p])) ∧
  signalled (run w args).1.1 = signalled w ∧
  ((run w args).2 = Return EINVAL →
   forallb (loadable w) (tests sr) = false) ∧
  (existsb (plugin_missing w) (tests sr) = false →
   forallb (loadable w) (tests sr) = true →
   (run w args).2 = Return 0) ∧
  (NoDup (id_path <$> tests sr) →
   forallb (loadable w) (tests sr) = true →
   existsb (plugin_missing w) (tests sr) = false →
   (∀ n d sched,
      n ∈ tests sr → TestRun_load w n = Some d →
      get_plugin w (scheduler d) = Some sched →
      cancellable (state (current (status d))) = true →
      TestRun_load (run w args).1.1 n =
        Some (cancelled_dir d (cancel_job sched n d))) ∧
   (∀ n d,
      n ∈ tests sr → TestRun_load w n = Some d →
      cancellable (state (current (status d))) = false →
      TestRun_load (run w args).1.1 n = Some d) ∧
   cancelled_jobs (run w args).1.1 =
     cancelled_jobs w ++ filter (λ n, will_cancel w n = true) (tests sr) ∧
   ∃ post,
     (run w args).1.2 =
       [UnableToKill test_id p] ++ (report_line w <$> tests sr) ++ post).
Proof.
  intros Ht Hs Hf Hp Hk.
  assert (Hstep : ∀ tl out,
     resolve_id test_id tl (w, out) =
       ((w, out ++ [UnableToKill test_id p]), inr (tl ++ tests sr))).
  { intros tl out. unfold resolve_id. rewrite Hs.
    unfold mbind at 1, Cmd_bind at 1. cbn [get_world fst].
    rewrite Hf. unfold kill_series. rewrite Hp.
    unfold mbind, Cmd_bind. cbn [get_world fst]. rewrite Hk.
    reflexivity. }
  split; [exact Hstep|].
  rewrite (run_single_series w args test_id sr [UnableToKill test_id p]
             Ht (Hstep [] [])).
  split; [reflexivity|].
  destruct (finish_cancel_phase (tests sr) args w [UnableToKill test_id p])
    as (Hsig & He & Hz).
  split; [exact Hsig|]. split; [exact He|]. split; [exact Hz|].
  apply members_are_cancelled.
Qed.

(** C6.  A series without a recorded process group ([None], or a value
    that counts as false): the first loop sends no signal and prints
    nothing for it, and adds the members of the series to the list.  The
    command then is the second loop over the members, which sends no
    signal either, and it returns 0 when every member loads and has its
    scheduler.  When the members are distinct runs as well, each of them
    goes through the per-run path: a member that was RUNNING or SCHEDULED
    is handed to its scheduler, whose answer is the new last entry of its
    ledger, and gets the completion marker; a member in another state is
    left as it was; the scheduler is asked for the cancellable members
    only, in the order of the series; and the output begins with the line
    of each member, in that order. *)
Theorem series_without_pgid w args test_id sr :
  args_tests args = [test_id] →
  String.prefix "s" test_id = true →
  find_series w test_id = inr sr →
  truthy (pgid sr) = None →
  (∀ tl out,
     resolve_id test_id tl (w, out) = ((w, out), inr (tl ++ tests sr))) ∧
  run w args = finish (cancel_phase (tests sr) args (w, [])) ∧
  signalled (run w args).1.1 = signalled w ∧
  (existsb (plugin_missing w) (tests sr) = false →
   forallb (loadable w) (tests sr) = true →
   (run w args).2 = Return 0) ∧
  (NoDup (id_path <$> tests sr) →
   forallb (loadable w) (tests sr) = true →
   existsb (plugin_missing w) (tests sr) = false →
   (∀ n d sched,
      n ∈ tests sr → TestRun_load w n = Some d →
      get_plugin w (scheduler d) = Some sched →
      cancellable (state (current (status d))) = true →
      TestRun_load (run w args).1.1 n =
        Some (cancelled_dir d (cancel_job sched n d))) ∧
   (∀ n d,
      n ∈ tests sr → TestRun_load w n = Some d →
      cancellable (state (current (status d))) = false →
      TestRun_load (run w args).1.1 n = Some d) ∧
   cancelled_jobs (run w args).1.1 =
     cancelled_jobs w ++ filter (λ n, will_cancel w n = true) (tests sr) ∧
   ∃ post,
     (run w args).1.2 = [] ++ (report_line w <$> tests sr) ++ post).
Proof.
  intros Ht Hs Hf Hp.
  assert (Hstep : ∀ tl out,
     resolve_id test_id tl (w, out) = ((w, out), inr (tl ++ tests sr))).
  { intros tl out. unfold resolve_id. rewrite Hs.
    unfold mbind at 1, Cmd_bind at 1. cbn [get_world fst].
    rewrite Hf. unfold kill_series. rewrite Hp. reflexivity. }
  split; [exact Hstep|].
  rewrite (run_single_series w args test_id sr [] Ht (Hstep [] [])).
  split; [reflexivity|].
  destruct (finish_cancel_phase (tests sr) args w []) as (Hsig & _ & Hz).
  split; [exact Hsig|]. split; [exact Hz|].
  apply members_are_cancelled.
Qed.

(** Directory names that read as run ids. *)
Lemma names_expand w names :
  (∀ name, name ∈ names →
     String.prefix "s" name = false ∧
     ∃ n, py_int name = Some n ∧ id_path n = name) →
  ∃ ns,
    mapM (expansion w) names = Some ((λ n, [n]) <$> ns) ∧
    id_path <$> ns = names ∧
    concat ((λ n, [n]) <$> ns) = ns ∧
    existsb (kill_refused w) names = false.
Proof.
  induction names as [|name names IH]; intros H.
  - exists []. repeat split.
  - destruct (H name (list_elem_of_here _ _)) as (Hs & n & Hi & Hp).
    destruct IH as (ns & Hm & Hpaths & Hc & Hk).
    { intros nm Hnm. apply H. right. exact Hnm. }
    exists (n :: ns).
    assert (Hx : expansion w name = Some [n])
      by (unfold expansion; rewrite Hs, Hi; reflexivity).
    rewrite (mapM_cons_Some _ _ _ _ Hx), Hm.
    split; [reflexivity|].
    split; [rewrite fmap_cons, Hp, Hpaths; reflexivity|].
    split; [rewrite fmap_cons; cbn [concat app]; rewrite Hc; reflexivity|].
    cbn [existsb]. unfold kill_refused at 1. rewrite Hs, Hk. reflexivity.
Qed.

(** X9.  [run --all] a second time.  When the names of the selected
    directories read as run ids that lead back to them, and their
    schedulers are registered, the first call returns 0, and what a second
    call with [--all] would select is only what the first could not cancel:
    directories of the user in a state other than RUNNING and SCHEDULED,
    which the first call left as they were. *)
Theorem cancel_all_leaves_only_the_uncancellable w st js :
  (∀ name, name ∈ default_tests w (mkArgs [] true st js) →
     String.prefix "s" name = false ∧
     ∃ n, py_int name = Some n ∧ id_path n = name) →
  (∀ name d, name ∈ default_tests w (mkArgs [] true st js) →
     test_runs w !! name = Some d →
     is_Some (get_plugin w (scheduler d))) →
  (run w (mkArgs [] true st js)).2 = Return 0 ∧
  ∀ name,
    name ∈ default_tests (run w (mkArgs [] true st js)).1.1
             (mkArgs [] true st js) →
    ∃ d, test_runs w !! name = Some d ∧
         cancellable (state (current (status d))) = false ∧
         test_runs (run w (mkArgs [] true st js)).1.1 !! name = Some d.
Proof.
  set (args := mkArgs [] true st js). intros Hnames Hplug.
  assert (Hsel : ∀ w0 name, name ∈ default_tests w0 args ↔
            ∃ d, test_runs w0 !! name = Some d ∧ st_uid d = euid w0
                 ∧ RUN_COMPLETE d = false).
  { intros w0 name. unfold default_tests; cbn. rewrite own_unfinished_spec.
    split; intros (d & H & Hrest); exists d; (split; [|exact Hrest]);
      apply elem_of_map_to_list; exact H. }
  assert (Hnd : NoDup (default_tests w args)).
  { unfold default_tests; cbn.
    apply (sublist_NoDup _ (map_to_list (test_runs w)).*1);
      [apply NoDup_fst_map_to_list | apply own_unfinished_sublist]. }
  destruct (names_expand w (default_tests w args) Hnames)
    as (ns & Hm & Hpaths & Hc & Hk).
  assert (Hin_ns : ∀ n, n ∈ ns → id_path n ∈ default_tests w args).
  { intros n Hn. rewrite <- Hpaths. apply list_elem_of_fmap_2, Hn. }
  destruct (run_distinct w args ((λ n, [n]) <$> ns) Hm Hk)
    as (w' & pre & post & -> & Hhost & Hin & Hoff & _).
  { rewrite Hc, Hpaths. exact Hnd. }
  { rewrite Hc. apply forallb_forall. intros n Hn.
    apply list_elem_of_In, Hin_ns, Hsel in Hn as (d & Hd & _).
    unfold loadable, TestRun_load. rewrite Hd. reflexivity. }
  { rewrite Hc. destruct (existsb (plugin_missing w) ns) eqn:He; [|reflexivity].
    apply existsb_exists in He as (n & Hn & Hmiss).
    apply list_elem_of_In in Hn. pose proof (Hin_ns n Hn) as Hsn.
    pose proof Hsn as Hsn'. apply Hsel in Hsn' as (d & Hd & _).
    destruct (Hplug _ d Hsn Hd) as (sched & Hsched).
    unfold plugin_missing, TestRun_load in Hmiss.
    rewrite Hd, Hsched in Hmiss. discriminate. }
  cbn [fst snd]. split; [reflexivity|].
  rewrite Hc in Hin. rewrite Hc, Hpaths in Hoff.
  intros name Hname. apply Hsel in Hname as (d' & Hd' & Hu' & Hc').
  destruct Hhost as (Heuid & _). rewrite Heuid in Hu'.
  destruct (decide (name ∈ default_tests w args)) as [Hyes|Hno].
  - pose proof Hyes as Hyes'. apply Hsel in Hyes' as (d & Hd & _).
    rewrite <- Hpaths in Hyes.
    apply list_elem_of_fmap in Hyes as (n & -> & Hn).
    exists d. split; [exact Hd|].
    pose proof (Hin n d Hn Hd) as Hafter. unfold TestRun_load in Hafter.
    rewrite Hafter in Hd'. injection Hd' as <-.
    unfold after_cancel in *.
    destruct (Hplug _ d (Hin_ns n Hn) Hd) as (sched & Hsched).
    rewrite Hsched in *.
    destruct (cancellable (state (current (status d)))); [discriminate|].
    split; [reflexivity | exact Hafter].
  - exfalso. apply Hno, Hsel. exists d'.
    rewrite <- (Hoff name Hno). repeat split; assumption.
Qed.

(** ** The status table *)

Lemma no_table_print w out m w' :
  is_table m = false → no_table (w, out) → no_table (w', out ++ [m]).
Proof.
  unfold no_table. cbn [snd]. intros Hm Ho. apply Forall_app.
  split; [exact Ho | constructor; [exact Hm | constructor]].
Qed.

Lemma resolve_id_no_table test_id tl s :
  no_table s → no_table (resolve_id test_id tl s).1.
Proof.
  destruct s as [w out]. intros Hs. unfold resolve_id.
  destruct (String.prefix "s" test_id).
  - unfold mbind at 1, Cmd_bind at 1. cbn [get_world fst snd].
    destruct (find_series w test_id) as [[|]|sr].
    + apply (no_table_print w out); [reflexivity | exact Hs].
    + apply (no_table_print w out); [reflexivity | exact Hs].
    + unfold kill_series. destruct (truthy (pgid sr)) as [p|]; [|exact Hs].
      unfold mbind, Cmd_bind. cbn [get_world fst snd].
      destruct (os_killpg w p); cbn.
      * apply (no_table_print w out); [reflexivity | exact Hs].
      * apply (no_table_print w out); [reflexivity | exact Hs].
      * exact Hs.
      * exact Hs.
      * exact Hs.
  - destruct (py_int test_id); [exact Hs|].
    apply (no_table_print w out); [reflexivity | exact Hs].
Qed.

Lemma cancel_test_no_table n objs s :
  no_table s → no_table (cancel_test n objs s).1.
Proof.
  destruct s as [w out]. intros Hs.
  destruct (TestRun_load w n) as [test|] eqn:Hload.
  - destruct (get_plugin w (scheduler test)) as [sched|] eqn:Hplug.
    + destruct (cancellable (state (current (status test)))) eqn:Hc.
      * rewrite (cancel_test_cancel w out objs n test sched Hload Hplug Hc).
        apply (no_table_print w out); [reflexivity | exact Hs].
      * rewrite (cancel_test_skip w out objs n test sched Hload Hplug Hc).
        apply (no_table_print w out); [reflexivity | exact Hs].
    + unfold cancel_test, mbind, Cmd_bind. cbn [get_world fst snd].
      rewrite Hload, Hplug. exact Hs.
  - rewrite cancel_test_not_found by (unfold loadable; rewrite Hload; reflexivity).
    apply (no_table_print w out); [reflexivity | exact Hs].
Qed.

Lemma no_table_elem s json rows :
  no_table s → StatusTable json rows ∈ s.2 → False.
Proof.
  intros Hs Hin. unfold no_table in Hs. rewrite Forall_forall in Hs.
  specialize (Hs _ Hin). discriminate.
Qed.

(** X27.  The status table is printed only with [--status], only when the
    command reaches its end and returns 0, and only when at least one run
    was resolved; it is then the last line, in the format asked for, and it
    has one row for each resolved run, in the order of resolution. *)
Theorem status_table_comes_last w args json rows :
  StatusTable json rows ∈ (run w args).1.2 →
  args_status args = true ∧ json = args_json args ∧
  (run w args).2 = Return 0 ∧
  ∃ pre ls,
    (run w args).1.2 = pre ++ [StatusTable json rows] ∧
    Forall (λ m, is_table m = false) pre ∧
    mapM (expansion w) (default_tests w args) = Some ls ∧
    rows.*1 = concat ls ∧ concat ls ≠ [].
Proof.
  pose proof (for_each_invariant resolve_id no_table (default_tests w args)
                (λ x a s, resolve_id_no_table x a s) [] (w, [])
                (List.Forall_nil _)) as Hnt1.
  destruct (resolve_loop_exits w (default_tests w args) [] [] [])
    as (sigs & out & r & E & Hor).
  rewrite add_signals_nil in E. rewrite E in Hnt1. cbn [fst] in Hnt1.
  destruct r as [e|tl].
  { assert (Hrun : run w args = (add_signals w sigs, out, e))
      by (rewrite run_unfold, E; reflexivity).
    rewrite Hrun. intros Hin. destruct (no_table_elem _ _ _ Hnt1 Hin). }
  destruct Hor as [(e & Hr)|Hr]; [discriminate|].
  destruct (mapM (expansion w) (default_tests w args)) as [ls|];
    [|discriminate].
  injection Hr as ->. cbn [app] in E.
  pose proof (for_each_invariant cancel_test no_table (concat ls)
                (λ x a s, cancel_test_no_table x a s) []
                (add_signals w sigs, out) Hnt1) as Hnt2.
  destruct (cancel_loop_outcome (concat ls) [] (add_signals w sigs) out)
    as (w2 & out2 & r2 & E2 & _ & _ & Hor2 & _).
  rewrite E2 in Hnt2. cbn [fst] in Hnt2.
  destruct r2 as [e|objs].
  { assert (Hrun : run w args = (w2, out2, e)).
    { rewrite run_unfold, E. unfold cancel_phase, mbind at 1, Cmd_bind at 1.
      rewrite E2. reflexivity. }
    rewrite Hrun. intros Hin. destruct (no_table_elem _ _ _ Hnt2 Hin). }
  assert (objs = concat ls) as ->.
  { destruct Hor2 as [Hr|Hr]; [discriminate|]. unfold loop_verdict in Hr.
    destruct (forallb (loadable (add_signals w sigs)) (concat ls));
      [|discriminate].
    injection Hr as ->. reflexivity. }
  destruct (args_status args && negb (bool_decide (concat ls = []))) eqn:Hp.
  - apply andb_true_iff in Hp as [Hst Hne].
    apply negb_true_iff, bool_decide_eq_false in Hne.
    assert (Hrun : run w args =
              (w2,
               out2 ++ [StatusTable (args_json args)
                          (map (λ n, (n, current ∘ status <$> TestRun_load w2 n))
                             (concat ls))],
               Return 0)).
    { rewrite run_unfold, E. unfold cancel_phase, mbind at 1, Cmd_bind at 1.
      rewrite E2, Hst. rewrite bool_decide_eq_false_2 by exact Hne.
      reflexivity. }
    rewrite Hrun. cbn [fst snd]. intros Hin.
    apply elem_of_app in Hin as [Hin|Hin];
      [destruct (no_table_elem _ _ _ Hnt2 Hin)|].
    apply list_elem_of_singleton in Hin. injection Hin as -> ->.
    split; [exact Hst|]. split; [reflexivity|]. split; [reflexivity|].
    exists out2, ls. split; [reflexivity|]. split; [exact Hnt2|].
    split; [reflexivity|]. split; [|exact Hne].
    change (map ?f ?l) with (f <$> l).
    rewrite <- list_fmap_compose. apply list_fmap_id.
  - assert (Hrun : run w args = (w2, out2, Return 0)).
    { rewrite run_unfold, E. unfold cancel_phase, mbind at 1, Cmd_bind at 1.
      rewrite E2, Hp. reflexivity. }
    rewrite Hrun. intros Hin. destruct (no_table_elem _ _ _ Hnt2 Hin).
Qed.
End Cancel.

(** * Concrete runs *)

(** The scenario of run 42: RUNNING, and the scheduler answers
    (CANCELLED, "terminated by user"). *)
Example run_42 :
  let r := run dec_int dec_path site (mkArgs ["42"] false true false) in
  r.1.2 = [TestCancelled 42; StatusTable false [(42, Some cancelled_by_user)]]
  ∧ r.2 = Return 0
  ∧ cancelled_jobs r.1.1 = [42]
  ∧ test_runs r.1.1 !! "42" =
      Some (mkRunDir 1000 true "slurm"
              (mkLedger created [mkStatus STATES.RUNNING ""; cancelled_by_user])).
Proof. vm_compute. repeat split. Qed.

(** The scenario of series s7 with members 10, 11 and 12, of which 11 is
    COMPLETE. *)
Example run_s7 :
  let r := run dec_int dec_path site (mkArgs ["s7"] false false false) in
  r.1.2 = [UnableToKill "s7" 4321; TestCancelled 10;
           TestNotCancellable 11 STATES.COMPLETE; TestCancelled 12]
  ∧ r.2 = Return 0
  ∧ cancelled_jobs r.1.1 = [10; 12]
  ∧ signalled r.1.1 = [].
Proof. vm_compute. repeat split. Qed.

(** A series whose process group is alive gets the signal. *)
Example run_s9 :
  let r := run dec_int dec_path site (mkArgs ["s9"] false false false) in
  r.1.2 = [KilledProcess 555 "s9"; TestCancelled 12]
  ∧ r.2 = Return 0 ∧ signalled r.1.1 = [555].
Proof. vm_compute. repeat split. Qed.

(** A process group recorded as 0 counts as none. *)
Example run_s6 :
  let r := run dec_int dec_path site (mkArgs ["s6"] false false false) in
  r.1.2 = [TestCancelled 10] ∧ r.2 = Return 0 ∧ signalled r.1.1 = [].
Proof. vm_compute. repeat split. Qed.

(** The scenario of the identifiers 99 and sX: the first loop ends at sX,
    before run 99 is looked up. *)
Example run_99_sX :
  run dec_int dec_path site (mkArgs ["99"; "sX"] false false false) =
    (site, [SeriesNotValid "sX"], Return EINVAL).
Proof. vm_compute. reflexivity. Qed.

(** A run that does not exist, after one that does: run 42 is cancelled,
    then the command leaves at 99 and never reaches run 10. *)
Example run_42_99_10 :
  let r := run dec_int dec_path site (mkArgs ["42"; "99"; "10"] false true false) in
  r.1.2 = [TestCancelled 42; TestNotFound 99]
  ∧ r.2 = Return EINVAL
  ∧ cancelled_jobs r.1.1 = [42]
  ∧ test_runs r.1.1 !! "10" = Some run10.
Proof. vm_compute. repeat split. Qed.

(** A series whose process group may not be signalled: the exception
    leaves the command in the first loop, although both identifiers
    resolve, and run 42 is not reached. *)
Example run_42_s9_refused :
  forallb (resolves dec_int dec_path guarded_site) ["42"; "s9"] = true
  ∧ run dec_int dec_path guarded_site (mkArgs ["42"; "s9"] false false false)
    = (guarded_site, [], Raise PermissionError).
Proof. vm_compute. split; reflexivity. Qed.

(** An unknown series. *)
Example run_s5 :
  run dec_int dec_path site (mkArgs ["s5"] false false false) =
    (site, [SeriesNotFound "s5"], Return EINVAL).
Proof. vm_compute. reflexivity. Qed.

(** Without identifiers: the latest series of the user, s8 here, or nothing
    at all when the user has none. *)
Example run_latest_series :
  run dec_int dec_path site (mkArgs [] false false false) =
    run dec_int dec_path site (mkArgs ["s8"] false false false)
  ∧ (run dec_int dec_path site (mkArgs [] false false false)).1.2 =
      [TestCancelled 42; TestNotCancellable 7 STATES.CREATED].
Proof. vm_compute. split; reflexivity. Qed.

Example run_no_series :
  run dec_int dec_path site_without_series (mkArgs [] false true false) =
    (site_without_series, [], Return 0).
Proof. vm_compute. reflexivity. Qed.

(** With [--all]: the unfinished runs of user 1000; not 11, which holds the
    marker, and not 13, which belongs to user 2000. *)
Example run_all :
  default_tests site (mkArgs [] true false false) = ["7"; "12"; "10"; "42"].
Proof. vm_compute. reflexivity. Qed.

(** * The theorems at concrete inputs *)


Lemma cancel_terminal_is_noop_witness :
  (TestRun_load dec_path site 11 = Some run11
   ∧ STATES.terminal (state (current (status run11))) = true)
  ∧ ∀ k : nat,
      run dec_int dec_path
          (Nat.iter k (λ w', (run dec_int dec_path w'
                                (mkArgs ["11"] false false false)).1.1) site)
          (mkArgs ["11"] false false false) =
        (site, [TestNotCancellable 11 STATES.COMPLETE], Return 0).
Proof.
  split; [split; reflexivity|]. intros k.
  exact (proj2 (proj2 (cancel_terminal_is_noop dec_int dec_path site
                   (mkArgs ["11"] false false false) "11" 11 run11 slurm
                   eq_refl eq_refl eq_refl eq_refl eq_refl eq_refl) k)).
Defined.

Lemma cancel_created_is_skipped_witness :
  (TestRun_load dec_path site 7 = Some run7
   ∧ state (current (status run7)) = STATES.CREATED)
  ∧ run dec_int dec_path site (mkArgs ["7"] false false false) =
      (site, [TestNotCancellable 7 STATES.CREATED], Return 0).
Proof.
  split; [split; reflexivity|].
  exact (proj2 (cancel_created_is_skipped dec_int dec_path site
                  (mkArgs ["7"] false false false) "7" 7 run7 slurm
                  eq_refl eq_refl eq_refl eq_refl eq_refl eq_refl)).
Defined.

Lemma dead_group_is_not_a_failure_witness :
  (find_series dec_int site "s7" = inr (mkSeries [10; 11; 12] (Some 4321))
   ∧ os_killpg site 4321 = NoSuchProcess
   ∧ NoDup (dec_path <$> [10; 11; 12])
   ∧ forallb (loadable dec_path site) [10; 11; 12] = true
   ∧ existsb (plugin_missing dec_path site) [10; 11; 12] = false)
  ∧ (run dec_int dec_path site (mkArgs ["s7"] false false false)).2 = Return 0
  ∧ TestRun_load dec_path
      (run dec_int dec_path site (mkArgs ["s7"] false false false)).1.1 10
    = Some (cancelled_dir run10 cancelled_by_user)
  ∧ TestRun_load dec_path
      (run dec_int dec_path site (mkArgs ["s7"] false false false)).1.1 11
    = Some run11
  ∧ cancelled_jobs
      (run dec_int dec_path site (mkArgs ["s7"] false false false)).1.1
    = [10; 12].
Proof.
  assert (Hnd : NoDup (dec_path <$> [10; 11; 12])).
  { apply (bool_decide_unpack _). vm_compute. exact I. }
  split; [split; [reflexivity|]; split; [reflexivity|];
          split; [exact Hnd|]; split; reflexivity|].
  destruct (dead_group_is_not_a_failure dec_int dec_path site
              (mkArgs ["s7"] false false false) "s7"
              (mkSeries [10; 11; 12] (Some 4321)) 4321
              eq_refl eq_refl eq_refl eq_refl eq_refl)
    as (_ & _ & _ & _ & H0 & Hmem).
  destruct (Hmem Hnd eq_refl eq_refl) as (Hc & Hs & Hj & _).
  split; [exact (H0 eq_refl eq_refl)|].
  split; [|split; [|exact Hj]].
  - apply (Hc 10 run10 slurm); [left | reflexivity ..].
  - apply (Hs 11 run11); [right; left | reflexivity ..].
Defined.

Lemma series_without_pgid_witness :
  (find_series dec_int site "s8" = inr (mkSeries [42; 7] None)
   ∧ truthy (pgid (mkSeries [42; 7] None)) = None
   ∧ NoDup (dec_path <$> [42; 7])
   ∧ forallb (loadable dec_path site) [42; 7] = true
   ∧ existsb (plugin_missing dec_path site) [42; 7] = false)
  ∧ run dec_int dec_path site (mkArgs ["s8"] false false false) =
      finish (cancel_phase dec_path [42; 7]
                (mkArgs ["s8"] false false false) (site, []))
  ∧ signalled (run dec_int dec_path site
                 (mkArgs ["s8"] false false false)).1.1 = []
  ∧ TestRun_load dec_path
      (run dec_int dec_path site (mkArgs ["s8"] false false false)).1.1 42
    = Some (cancelled_dir run42 cancelled_by_user)
  ∧ TestRun_load dec_path
      (run dec_int dec_path site (mkArgs ["s8"] false false false)).1.1 7
    = Some run7
  ∧ cancelled_jobs
      (run dec_int dec_path site (mkArgs ["s8"] false false false)).1.1
    = [42].
Proof.
  assert (Hnd : NoDup (dec_path <$> [42; 7])).
  { apply (bool_decide_unpack _). vm_compute. exact I. }
  split; [split; [reflexivity|]; split; [reflexivity|];
          split; [exact Hnd|]; split; reflexivity|].
  destruct (series_without_pgid dec_int dec_path site
              (mkArgs ["s8"] false false false) "s8" (mkSeries [42; 7] None)
              eq_refl eq_refl eq_refl eq_refl)
    as (_ & H1 & H2 & _ & Hmem).
  destruct (Hmem Hnd eq_refl eq_refl) as (Hc & Hs & Hj & _).
  split; [exact H1|]. split; [exact H2|].
  split; [|split; [|exact Hj]].
  - apply (Hc 42 run42 slurm); [left | reflexivity ..].
  - apply (Hs 7 run7); [right; left | reflexivity ..].
Defined.

Lemma resolution_is_flat_in_order_witness :
  existsb (kill_refused dec_int site) ["s8"; "42"; "s7"] = false
  ∧ ∃ s, for_each (resolve_id dec_int) ["s8"; "42"; "s7"] [] (site, []) =
           (s, inr [42; 7; 42; 10; 11; 12]).
Proof.
  split; [reflexivity|].
  destruct (resolution_is_flat_in_order dec_int site ["s8"; "42"; "s7"] eq_refl)
    as (s & H & _).
  exists s. exact H.
Defined.

Lemma run_exit_status_witness :
  (existsb (faulty dec_int dec_path site) ["s7"; "7"] = false
   ∧ (run dec_int dec_path site (mkArgs ["s7"; "7"] false false false)).2
     = Return 0)
  ∧ (kill_fault (os_killpg guarded_site 555) = Some PermissionError
     ∧ (run dec_int dec_path guarded_site
          (mkArgs ["42"; "s9"] false false false)).2 = Raise PermissionError
     ∧ test_runs (run dec_int dec_path guarded_site
                    (mkArgs ["42"; "s9"] false false false)).1.1
       = test_runs guarded_site)
  ∧ (plugin_missing dec_path site_without_schedulers 10 = true
     ∧ for_each (cancel_test dec_path) ([] ++ 10 :: [11]) []
         (site_without_schedulers, [])
       = ((site_without_schedulers, []), inl (Raise SchedulerPluginError))).
Proof.
  split; [|split].
  - split; [reflexivity|].
    exact (proj1 (run_exit_status dec_int dec_path site
                    (mkArgs ["s7"; "7"] false false false)) eq_refl).
  - split; [reflexivity|].
    destruct (run_exit_status dec_int dec_path guarded_site
                (mkArgs ["42"; "s9"] false false false))
      as (_ & _ & Hraise & _).
    destruct (Hraise ["42"] "s9" [] (mkSeries [12] (Some 555)) 555
                PermissionError eq_refl (mk_is_Some _ _ eq_refl) eq_refl
                eq_refl eq_refl eq_refl eq_refl)
      as (H1 & H2 & _).
    split; [exact H1 | exact H2].
  - split; [reflexivity|].
    destruct (run_exit_status dec_int dec_path site
                (mkArgs [] false false false))
      as (_ & _ & _ & Hsched).
    exact (Hsched [] 10 [11] [] (site_without_schedulers, [])
             (site_without_schedulers, []) [] eq_refl eq_refl).
Defined.

Lemma resolution_failure_aborts_witness :
  (mapM (expansion dec_int site) ["42"; "bad"] = None
   ∧ (run dec_int dec_path site (mkArgs ["42"; "bad"] false false false)).2
     = Return EINVAL
   ∧ test_runs (run dec_int dec_path site
                  (mkArgs ["42"; "bad"] false false false)).1.1
     = test_runs site)
  ∧ (loadable dec_path site 99 = false
     ∧ (for_each (cancel_test dec_path) ([11] ++ 99 :: [10]) [] (site, [])).2
       = inl (Return EINVAL)).
Proof.
  pose proof (resolution_failure_aborts dec_int dec_path) as [Hfirst Hsecond].
  split.
  - destruct (Hfirst site (mkArgs ["42"; "bad"] false false false) eq_refl)
      as (H1 & _ & _ & _ & H5).
    split; [reflexivity|]. split; [exact (H5 eq_refl) | exact H1].
  - split; [reflexivity|].
    rewrite (Hsecond [11] 99 [10] [] (site, [])
               (site, [TestNotCancellable 11 STATES.COMPLETE]) [11]
               eq_refl eq_refl).
    reflexivity.
Defined.

(** * Counterexamples *)

(** C1 as it is written fails: with the batch 42, bad the malformed
    identifier ends the command before run 42, which loads and is RUNNING,
    is handled or reported. *)
Lemma malformed_id_stops_the_batch :
  ¬ failures_are_isolated dec_int dec_path site
      (mkArgs ["42"; "bad"] false false false).
Proof.
  intros H.
  specialize (H "42" [42] 42).
  assert (Hout : existsb (reports 42)
            (run dec_int dec_path site
               (mkArgs ["42"; "bad"] false false false)).1.2 = true).
  { apply H; [left | reflexivity | left | reflexivity]. }
  vm_compute in Hout. discriminate.
Qed.

(** C4 as it is written fails: run 7 is CREATED, and after [run] it still
    is. *)
Lemma created_run_stays_created :
  ¬ created_run_gets_cancelled dec_int dec_path site
      (mkArgs ["7"] false false false) 7.
Proof.
  intros H.
  destruct (H run7 eq_refl eq_refl) as (test' & Hload & Hst).
  vm_compute in Hload. injection Hload as <-. discriminate.
Qed.

(** C7 as it is written fails: an id named twice is in the list twice. *)
Lemma same_id_twice_is_resolved_twice :
  ¬ resolution_has_no_duplicates dec_int site ["5"; "5"].
Proof.
  intros H.
  specialize (H (site, []) [5; 5] eq_refl).
  apply NoDup_cons in H as [Hnotin _].
  apply Hnotin. left.
Qed.

(** C8 as it is written fails: each of the identifiers 42 and s9 resolves,
    but the signal to the process group of s9 is refused, and the
    [PermissionError] leaves [run]: no value is returned. *)
Lemma refused_signal_leaves_run :
  ¬ outcome_is_returned dec_int dec_path guarded_site
      (mkArgs ["42"; "s9"] false false false).
Proof.
  intros (code & Hret & _).
  vm_compute in Hret. discriminate.
Qed.

(** * pavilion.config: where the configuration comes from *)

Section FindConfig.
Context {Cfg : Type} (h : Loader Cfg).

Lemma find_given_scan paths :
  find_given h paths = scan h (omap id paths).
Proof.
  induction paths as [|[p|] paths IH]; simpl; [reflexivity| |exact IH].
  destruct (is_file h p); [reflexivity | exact IH | reflexivity].
Qed.

Lemma find_in_dirs_scan dirs :
  find_in_dirs h dirs = scan h ((λ d, joinpath h d PAV_CONFIG_NAME) <$> dirs).
Proof.
  induction dirs as [|d dirs IH]; simpl; [reflexivity|].
  destruct (is_file h (joinpath h d PAV_CONFIG_NAME));
    [reflexivity | exact IH | reflexivity].
Qed.

Lemma scan_app l1 l2 :
  scan h (l1 ++ l2) =
    match scan h l1 with Some r => Some r | None => scan h l2 end.
Proof.
  induction l1 as [|p l1 IH]; simpl; [reflexivity|].
  destruct (is_file h p); [reflexivity | exact IH | reflexivity].
Qed.

Lemma find_is_scan file dirs target warn :
  find_pavilion_config h file dirs target warn =
    match scan h (candidates h file dirs target) with
    | Some r => r
    | None => Defaults (load_empty h) warn
    end.
Proof.
  unfold find_pavilion_config, candidates.
  rewrite scan_app, find_given_scan, find_in_dirs_scan.
  destruct (scan h (omap id [target; file])); reflexivity.
Qed.

Lemma scan_none files :
  scan h files = None ↔ Forall (λ q, is_file h q = No) files.
Proof.
  induction files as [|p files IH]; simpl.
  - split; [constructor | reflexivity].
  - destruct (is_file h p) eqn:Hp.
    + split; [discriminate | intros H; inversion H; congruence].
    + rewrite IH. split; [intros H; constructor; assumption
                         | intros H; inversion H; assumption].
    + split; [discriminate | intros H; inversion H; congruence].
Qed.

Lemma scan_first pre p post :
  Forall (λ q, is_file h q = No) pre → is_file h p = Yes →
  scan h (pre ++ p :: post) = Some (load_found h p).
Proof.
  intros Hpre Hp. rewrite scan_app.
  rewrite (proj2 (scan_none pre) Hpre). simpl. rewrite Hp. reflexivity.
Qed.

(** X10.  The first candidate that is a file decides alone, in the order
    target, [PAV_CONFIG_FILE], then [pavilion.yaml] in each search
    directory: its config is returned with [pav_cfg_file] set to it, and
    when it does not load the call raises [RuntimeError] about it; no later
    candidate is looked at. *)
Theorem first_config_file_decides file dirs target warn pre p post :
  candidates h file dirs target = pre ++ p :: post →
  Forall (λ q, is_file h q = No) pre →
  is_file h p = Yes →
  find_pavilion_config h file dirs target warn =
    match load h p with
    | Some cfg => FromFile cfg p
    | None => ConfigError p
    end.
Proof.
  intros Hc Hpre Hp. rewrite find_is_scan, Hc, (scan_first _ _ _ Hpre Hp).
  reflexivity.
Qed.

(** X11.  The empty config is used, with the warning exactly when [warn] is
    set, if and only if no candidate is a file. *)
Theorem default_config_iff_no_file file dirs target warn :
  find_pavilion_config h file dirs target warn = Defaults (load_empty h) warn
  ↔ Forall (λ q, is_file h q = No) (candidates h file dirs target).
Proof.
  rewrite find_is_scan, <- scan_none.
  destruct (scan h (candidates h file dirs target)) as [r|] eqn:Hs.
  - split; [|discriminate]. intros ->. exfalso.
    revert Hs. generalize (candidates h file dirs target).
    induction l as [|q l IH]; simpl; [discriminate|].
    destruct (is_file h q); [|exact IH|discriminate].
    unfold load_found. destruct (load h q); discriminate.
  - split; reflexivity.
Qed.

(** X12.  Whatever is returned from a file was found by the search: the
    file of the returned config is a candidate that is a file, and every
    candidate before it is none. *)
Theorem found_config_is_first_file file dirs target warn cfg p :
  find_pavilion_config h file dirs target warn = FromFile cfg p →
  load h p = Some cfg ∧
  ∃ pre post,
    candidates h file dirs target = pre ++ p :: post ∧
    Forall (λ q, is_file h q = No) pre ∧ is_file h p = Yes.
Proof.
  rewrite find_is_scan. generalize (candidates h file dirs target).
  induction l as [|q l IH]; simpl; [discriminate|].
  destruct (is_file h q) eqn:Hq.
  - unfold load_found. destruct (load h q) as [c|] eqn:Hl; [|discriminate].
    intros [= -> ->]. split; [exact Hl|].
    exists [], l. repeat split; [constructor | exact Hq].
  - intros H. destruct (IH H) as (Hl & pre & post & -> & Hpre & Hp).
    split; [exact Hl|]. exists (q :: pre), post.
    repeat split; [constructor; assumption | exact Hp].
  - discriminate.
Qed.

End FindConfig.

(** * pavilion.config: the configuration directories *)

Section ConfigDirs.
Context (disk : Disk).

(** The warnings the loop prints when it runs to its end: one "Cannot
    access" for each value that cannot be probed. *)
Lemma dirs_loop_returns values : ∀ config_dirs out,
  Forall (λ v, path_exists disk v ≠ No) values →
  ∃ news,
    dirs_loop disk values config_dirs out =
      (out ++ omap (λ v, match path_exists disk v with
                         | Denied => Some CannotAccess
                         | _ => None
                         end) values,
       inr (config_dirs ++ news)) ∧
    (∀ p, p ∈ news →
       ∃ v, v ∈ values ∧ path_exists disk v = Yes ∧ p = resolve disk v) ∧
    (∀ v, v ∈ values → path_exists disk v = Yes →
       v ∈ config_dirs ++ news ∨ resolve disk v ∈ config_dirs ++ news) ∧
    (NoDup config_dirs → (∀ v, v ∈ values → resolve disk v = v) →
     NoDup (config_dirs ++ news)).
Proof.
  induction values as [|v values IH]; intros config_dirs out Hall.
  - exists []. simpl. rewrite !app_nil_r. split; [reflexivity|].
    split; [intros p Hp; inversion Hp|].
    split; [intros v Hv; inversion Hv | intros Hnd _; exact Hnd].
  - apply Forall_cons in Hall as [Hv Hall]. simpl.
    destruct (path_exists disk v) eqn:Ev; [| congruence |].
    + destruct (decide (v ∈ config_dirs)) as [Hin|Hnin].
      * destruct (IH config_dirs out Hall) as (news & E & Hnews & Hyes & Hnd).
        exists news. split; [exact E|]. split; [|split].
        -- intros p Hp. destruct (Hnews p Hp) as (u & Hu & Hr).
           exists u. split; [right; exact Hu | exact Hr].
        -- intros u Hu Hy. apply elem_of_cons in Hu as [->|Hu].
           ++ left. apply elem_of_app. left. exact Hin.
           ++ apply Hyes; assumption.
        -- intros H1 H2. apply Hnd; [exact H1|].
           intros u Hu. apply H2. right. exact Hu.
      * destruct (IH (config_dirs ++ [resolve disk v]) out Hall)
          as (news & E & Hnews & Hyes & Hnd).
        exists (resolve disk v :: news). rewrite E, <- app_assoc.
        split; [reflexivity|]. split; [|split].
        -- intros p Hp. apply elem_of_cons in Hp as [->|Hp].
           ++ exists v. split; [left | split; [exact Ev | reflexivity]].
           ++ destruct (Hnews p Hp) as (u & Hu & Hr).
              exists u. split; [right; exact Hu | exact Hr].
        -- intros u Hu Hy. apply elem_of_cons in Hu as [->|Hu].
           ++ right. apply elem_of_app. right. left.
           ++ specialize (Hyes u Hu Hy). rewrite <- app_assoc in Hyes.
              exact Hyes.
        -- intros H1 H2.
           change (config_dirs ++ resolve disk v :: news)
             with (config_dirs ++ [resolve disk v] ++ news).
           rewrite app_assoc. apply Hnd.
           ++ apply NoDup_app. split; [exact H1|].
              split; [|apply NoDup_singleton].
              intros x Hx Hx'. apply list_elem_of_singleton in Hx'.
              subst x. rewrite (H2 v (list_elem_of_here _ _)) in Hx.
              contradiction.
           ++ intros u Hu. apply H2. right. exact Hu.
    + destruct (IH config_dirs (out ++ [CannotAccess]) Hall)
        as (news & E & Hnews & Hyes & Hnd).
      exists news. rewrite E, <- app_assoc. split; [reflexivity|].
      split; [|split].
      * intros p Hp. destruct (Hnews p Hp) as (u & Hu & Hr).
        exists u. split; [right; exact Hu | exact Hr].
      * intros u Hu Hy. apply elem_of_cons in Hu as [->|Hu];
          [congruence | apply Hyes; assumption].
      * intros H1 H2. apply Hnd; [exact H1|].
        intros u Hu. apply H2. right. exact Hu.
Qed.

Lemma dirs_loop_missing pre v post : ∀ config_dirs out,
  Forall (λ u, path_exists disk u ≠ No) pre →
  path_exists disk v = No →
  ∃ out',
    dirs_loop disk (pre ++ v :: post) config_dirs out =
      (out' ++ [DoesNotExist v], inl (NoSuchDirectory v)).
Proof.
  induction pre as [|u pre IH]; intros config_dirs out Hpre Hv; simpl.
  - rewrite Hv. exists out. reflexivity.
  - apply Forall_cons in Hpre as [Hu Hpre].
    destruct (path_exists disk u); [| congruence |].
    + destruct (decide (u ∈ config_dirs)); apply IH; assumption.
    + apply IH; assumption.
Qed.

Lemma dirs_loop_inr values : ∀ config_dirs out out' dirs,
  dirs_loop disk values config_dirs out = (out', inr dirs) →
  Forall (λ v, path_exists disk v ≠ No) values.
Proof.
  induction values as [|u values IH]; intros ds o o' dirs E; [constructor|].
  simpl in E. destruct (path_exists disk u) eqn:Eu.
  - constructor; [congruence|].
    destruct (decide (u ∈ ds)); eapply IH; exact E.
  - discriminate.
  - constructor; [congruence | eapply IH; exact E].
Qed.

(** X13.  A configured directory that does not exist is not ignored: after
    the warning that says so, the validator is left by the error of listing
    the directory, and the values after it are never looked at. *)
Theorem missing_config_dir_raises home cfg_dir user_config pre v post dirs0 :
  first_dirs disk home cfg_dir user_config = inr dirs0 →
  Forall (λ u, path_exists disk u ≠ No) pre →
  path_exists disk v = No →
  ∃ out,
    config_dirs_validator disk home cfg_dir user_config (pre ++ v :: post) =
      (out ++ [DoesNotExist v], inl (NoSuchDirectory v)).
Proof.
  intros H0 Hpre Hv. unfold config_dirs_validator. rewrite H0.
  apply dirs_loop_missing; assumption.
Qed.

(** X14.  When every value exists or cannot be probed, the validator
    returns: the directories put first, followed by resolved values that
    exist, so that each value that exists is in the list, as it is or
    resolved; and it warns once for each value that cannot be probed. *)
Theorem config_dirs_of_existing_values home cfg_dir user_config values dirs0 :
  first_dirs disk home cfg_dir user_config = inr dirs0 →
  Forall (λ v, path_exists disk v ≠ No) values →
  ∃ news,
    config_dirs_validator disk home cfg_dir user_config values =
      (omap (λ v, match path_exists disk v with
                  | Denied => Some CannotAccess
                  | _ => None
                  end) values,
       inr (dirs0 ++ news)) ∧
    (∀ p, p ∈ news →
       ∃ v, v ∈ values ∧ path_exists disk v = Yes ∧ p = resolve disk v) ∧
    (∀ v, v ∈ values → path_exists disk v = Yes →
       v ∈ dirs0 ++ news ∨ resolve disk v ∈ dirs0 ++ news).
Proof.
  intros H0 Hall. unfold config_dirs_validator. rewrite H0.
  destruct (dirs_loop_returns values dirs0 [] Hall) as (news & E & H1 & H2 & _).
  exists news. split; [exact E|]. split; assumption.
Qed.

(** X15.  When the values are paths that resolve to themselves and the
    directories put first are distinct, no directory is listed twice. *)
Theorem resolved_config_dirs_are_distinct
    home cfg_dir user_config values dirs0 out dirs :
  first_dirs disk home cfg_dir user_config = inr dirs0 →
  NoDup dirs0 →
  (∀ v, v ∈ values → resolve disk v = v) →
  config_dirs_validator disk home cfg_dir user_config values = (out, inr dirs) →
  NoDup dirs.
Proof.
  intros H0 Hnd Hres. unfold config_dirs_validator. rewrite H0. intros E.
  pose proof (dirs_loop_inr _ _ _ _ _ E) as Hall.
  destruct (dirs_loop_returns values dirs0 [] Hall) as (news & E' & _ & _ & H).
  rewrite E in E'. injection E' as _ ->. apply H; assumption.
Qed.

End ConfigDirs.

(** * pavilion.config: the version *)

Section Version.
Context `{Whitespace}.

Lemma split_on_head sep s :
  ∃ pieces, split_on sep s = until sep s :: pieces.
Proof.
  induction s as [|c s IH]; simpl; [eexists; reflexivity|].
  destruct (Ascii.eqb c sep); [eexists; reflexivity|].
  destruct IH as (pieces & ->). eexists; reflexivity.
Qed.

Lemma split_on_sep sep a b :
  has_char sep a = false →
  split_on sep (a ++ String sep b)%string = a :: split_on sep b.
Proof.
  induction a as [|c a IH]; simpl.
  - intros _. rewrite Ascii.eqb_refl. reflexivity.
  - intros Hc. apply orb_false_iff in Hc as [Hc Ha].
    rewrite Hc, (IH Ha). reflexivity.
Qed.

Lemma prefix_split p s :
  String.prefix p s = true → ∃ rest, s = (p ++ rest)%string.
Proof.
  revert s. induction p as [|c p IH]; intros s.
  - intros _. exists s. reflexivity.
  - destruct s as [|c' s]; simpl; [discriminate|].
    destruct (Ascii.ascii_dec c c') as [Heq|Hne]; [subst c'|discriminate].
    intros Hp. destruct (IH s Hp) as (rest & ->). exists rest. reflexivity.
Qed.

Lemma prefix_app p rest : String.prefix p (p ++ rest)%string = true.
Proof.
  induction p as [|c p IH]; simpl.
  - destruct rest; reflexivity.
  - destruct (Ascii.ascii_dec c c); [exact IH | congruence].
Qed.

Lemma release_field rest :
  split_on "=" ("RELEASE=" ++ rest)%string !! 1%nat = Some (until "=" rest).
Proof.
  change ("RELEASE=" ++ rest)%string
    with ("RELEASE" ++ String "=" rest)%string.
  rewrite split_on_sep by reflexivity.
  destruct (split_on_head "=" rest) as (pieces & ->). reflexivity.
Qed.

Lemma scan_release_first pre rest post :
  Forall (λ l, String.prefix "RELEASE=" l = false) pre →
  scan_release (pre ++ ("RELEASE=" ++ rest)%string :: post)
  = Version (strip (until "=" rest)).
Proof.
  induction 1 as [|l pre Hl _ IH]; cbn [app scan_release].
  - rewrite prefix_app, release_field. reflexivity.
  - rewrite Hl. exact IH.
Qed.

(** X16.  [get_version] never fails on the text of the file: the index 1
    into [line.split('=')] is only taken in a line that starts with
    [RELEASE=], where it exists; so whenever the file can be read, and when
    it is not there, a string is returned. *)
Theorem get_version_returns release_txt :
  release_txt ≠ ReadFailed → ∃ v, get_version release_txt = Version v.
Proof.
  destruct release_txt as [lines| |]; intros Hr;
    [|eexists; reflexivity | congruence].
  simpl. clear Hr.
  induction lines as [|line lines IH]; simpl; [eexists; reflexivity|].
  destruct (String.prefix "RELEASE=" line) eqn:Hp; [|exact IH].
  destruct (prefix_split _ _ Hp) as (rest & ->).
  rewrite release_field. eexists; reflexivity.
Qed.

(** X17.  The version is read from the first line that starts with
    [RELEASE=]: it is the text between that [=] and the next [=] or the end
    of the line, stripped; later lines do not matter. *)
Theorem version_of_first_release_line pre rest post :
  Forall (λ l, String.prefix "RELEASE=" l = false) pre →
  get_version (FileLines (pre ++ ("RELEASE=" ++ rest)%string :: post))
  = Version (strip (until "=" rest)).
Proof. apply scan_release_first. Qed.

(** X18.  Without a line that starts with [RELEASE=], the version is
    [<unknown>]. *)
Theorem version_unknown_without_release_line lines :
  Forall (λ l, String.prefix "RELEASE=" l = false) lines →
  get_version (FileLines lines) = Version unknown_version.
Proof.
  simpl. induction 1 as [|l lines Hl _ IH]; simpl; [reflexivity|].
  rewrite Hl. exact IH.
Qed.

Lemma has_char_until sep s : has_char sep (until sep s) = false.
Proof.
  induction s as [|c s IH]; simpl; [reflexivity|].
  destruct (Ascii.eqb c sep) eqn:E; simpl; [reflexivity|].
  rewrite E, IH. reflexivity.
Qed.

Lemma has_char_lstrip c s : has_char c s = false → has_char c (lstrip s) = false.
Proof.
  induction s as [|c' s IH]; simpl; [trivial|].
  intros Hc. destruct (isspace c'); [|exact Hc].
  apply orb_false_iff in Hc as [_ Hs]. exact (IH Hs).
Qed.

Lemma has_char_rstrip c s : has_char c s = false → has_char c (rstrip s) = false.
Proof.
  induction s as [|c' s IH]; simpl; [trivial|].
  intros Hc. apply orb_false_iff in Hc as [Hc' Hs]. specialize (IH Hs).
  destruct (rstrip s) as [|k kept].
  - destruct (isspace c'); simpl; [reflexivity|]. rewrite Hc'. reflexivity.
  - simpl in *. rewrite Hc'. exact IH.
Qed.

(** X19.  The version returned never holds the character [=]. *)
Theorem version_has_no_equals_sign release_txt v :
  get_version release_txt = Version v → has_char "=" v = false.
Proof.
  destruct release_txt as [lines| |]; simpl;
    [|intros [= <-]; reflexivity | discriminate].
  induction lines as [|line lines IH]; simpl; [intros [= <-]; reflexivity|].
  destruct (String.prefix "RELEASE=" line) eqn:Hp; [|exact IH].
  destruct (prefix_split _ _ Hp) as (rest & ->).
  rewrite release_field. intros [= <-].
  apply has_char_rstrip, has_char_lstrip, has_char_until.
Qed.

Lemma until_absent sep s : has_char sep s = false → until sep s = s.
Proof.
  induction s as [|c s IH]; simpl; [reflexivity|].
  intros Hc. apply orb_false_iff in Hc as [Hc Hs].
  rewrite Hc, (IH Hs). reflexivity.
Qed.

Lemma has_char_app c a b :
  has_char c (a ++ b)%string = has_char c a || has_char c b.
Proof.
  induction a as [|c' a IH]; simpl; [reflexivity|].
  rewrite IH, orb_assoc. reflexivity.
Qed.

Lemma rstrip_app a b : rstrip b = EmptyString → rstrip (a ++ b)%string = rstrip a.
Proof.
  intros Hb. induction a as [|c a IH]; simpl; [exact Hb|].
  rewrite IH. reflexivity.
Qed.

Lemma lstrip_app_keep a b : a ≠ EmptyString → lstrip a = a →
  lstrip (a ++ b)%string = (a ++ b)%string.
Proof.
  destruct a as [|c a]; [congruence|]. intros _. simpl.
  destruct (isspace c) eqn:Hc; [|reflexivity].
  intros Hl. exfalso.
  assert (Hlen : ∀ s, (String.length (lstrip s) ≤ String.length s)%nat).
  { induction s as [|c' s IH]; simpl; [lia|].
    destruct (isspace c'); simpl; lia. }
  specialize (Hlen a). rewrite Hl in Hlen. simpl in Hlen. lia.
Qed.

Lemma version_round_trip_aux pre v post :
  isspace "010" = true →
  has_char "=" v = false → lstrip v = v → rstrip v = v →
  Forall (λ l, String.prefix "RELEASE=" l = false) pre →
  scan_release (pre ++ ("RELEASE=" ++ v ++ String "010" "")%string :: post)
  = Version v.
Proof.
  intros Hnl Heq Hl Hr Hpre. rewrite (scan_release_first _ _ _ Hpre).
  f_equal. rewrite until_absent
    by (rewrite has_char_app, Heq; simpl; reflexivity).
  unfold strip. destruct v as [|c v].
  - simpl. rewrite Hnl. reflexivity.
  - rewrite lstrip_app_keep by (congruence || exact Hl).
    rewrite rstrip_app by (simpl; rewrite Hnl; reflexivity). exact Hr.
Qed.

(** X20.  Writing and reading back.  When newline is a whitespace
    character, a version text without [=] and without whitespace at its
    ends, written as the line [RELEASE=<text>] before any other such line,
    is what [get_version] returns. *)
Theorem version_round_trip pre v post :
  isspace "010" = true →
  has_char "=" v = false → lstrip v = v → rstrip v = v →
  Forall (λ l, String.prefix "RELEASE=" l = false) pre →
  get_version
    (FileLines (pre ++ ("RELEASE=" ++ v ++ String "010" "")%string :: post))
  = Version v.
Proof.
  intros Hnl Heq Hl Hr Hpre. simpl get_version.
  apply version_round_trip_aux; assumption.
Qed.

End Version.

(** * The [graph] command *)

Section Graph.
Context (int : string → option Z) (from_id : string → option (list Z)).

Lemma graph_select_without_exclude args listing :
  graph_exclude args = None →
  graph_select args listing =
    if existsb entry_is_dir listing then inl GraphTypeError else inr [].
Proof.
  intros Hex. induction listing as [|e listing IH]; simpl; [reflexivity|].
  unfold graph_keep. rewrite Hex.
  destruct (entry_is_dir e); simpl; [reflexivity|].
  rewrite IH. destruct (existsb entry_is_dir listing); reflexivity.
Qed.

(** X21.  Without identifiers and without [--exclude], [graph] is left by a
    [TypeError] as soon as the directory of runs holds a directory; when it
    holds none, nothing is selected. *)
Theorem graph_needs_exclude listing args :
  graph_tests args = [] →
  graph_exclude args = None →
  graph_run int from_id listing args =
    if existsb entry_is_dir listing then inl GraphTypeError
    else inr ([], []).
Proof.
  intros Ht Hex. unfold graph_run.
  rewrite Ht, (graph_select_without_exclude args listing Hex).
  destruct (existsb entry_is_dir listing); reflexivity.
Qed.

(** X22.  What the filters of [graph] select when the walk over the
    directory ends without an exception: the names of the directories that
    are not excluded by name, whose owner is not excluded, and, with
    [--user], whose owner's name occurs inside the text given. *)
Theorem graph_selection args listing exclude names :
  graph_exclude args = Some exclude →
  graph_select args listing = inr names →
  ∀ name,
    name ∈ names ↔
    ∃ e owner,
      e ∈ listing ∧ entry_name e = name ∧ entry_is_dir e = true ∧
      (name ∉ exclude) ∧ entry_owner e = Some owner ∧ (owner ∉ exclude) ∧
      (∀ user, given (graph_user args) = Some user →
               substring owner user = true).
Proof.
  intros Hex. revert names.
  induction listing as [|e listing IH]; intros names; simpl.
  - intros [= <-] name. split; [intros Hn; inversion Hn|].
    intros (e & _ & He & _). inversion He.
  - destruct (graph_keep args e) as [x|keep] eqn:Hk; [discriminate|].
    destruct (graph_select args listing) as [x|names'] eqn:Hs; [discriminate|].
    intros [= <-] name. specialize (IH names' eq_refl name).
    assert (Hhere : keep = true ↔
              ∃ owner, entry_is_dir e = true ∧ (entry_name e ∉ exclude) ∧
                entry_owner e = Some owner ∧ (owner ∉ exclude) ∧
                (∀ user, given (graph_user args) = Some user →
                         substring owner user = true)).
    { unfold graph_keep in Hk. rewrite Hex in Hk.
      destruct (entry_is_dir e); simpl in Hk.
      - destruct (bool_decide (entry_name e ∈ exclude)) eqn:Hn.
        + injection Hk as <-. apply bool_decide_eq_true in Hn.
          split; [discriminate | intros (o & _ & Hno & _); contradiction].
        + apply bool_decide_eq_false in Hn.
          destruct (entry_owner e) as [owner|]; [|discriminate].
          destruct (bool_decide (owner ∈ exclude)) eqn:Ho.
          * injection Hk as <-. apply bool_decide_eq_true in Ho.
            split; [discriminate|].
            intros (o & _ & _ & [= <-] & Hno & _). contradiction.
          * apply bool_decide_eq_false in Ho.
            destruct (given (graph_user args)) as [user|].
            -- injection Hk as <-. split.
               ++ intros Hsub. exists owner. repeat split; try assumption.
                  intros u [= <-]. exact Hsub.
               ++ intros (o & _ & _ & [= <-] & _ & Hu). apply Hu. reflexivity.
            -- injection Hk as <-. split; [|reflexivity]. intros _.
               exists owner. repeat split; try assumption. discriminate.
      - injection Hk as <-.
        split; [discriminate | intros (o & Hd & _); discriminate]. }
    split.
    + intros Hn.
      assert (Hcase : (keep = true ∧ name = entry_name e) ∨ name ∈ names').
      { destruct keep; [|right; exact Hn].
        apply elem_of_cons in Hn as [->|Hn]; [left; split; reflexivity|].
        right; exact Hn. }
      destruct Hcase as [[Hkeep ->]|Hin].
      * apply Hhere in Hkeep as (owner & Hd & Hno & Hown & Hoe & Hu).
        exists e, owner. split; [left|]. repeat split; assumption.
      * apply IH in Hin as (e' & owner & He' & Hrest).
        exists e', owner. split; [right; exact He' | exact Hrest].
    + intros (e' & owner & He' & Hname & Hd & Hno & Hown & Hoe & Hu).
      apply elem_of_cons in He' as [->|He'].
      * assert (Hkeep : keep = true).
        { apply Hhere. exists owner. rewrite Hname. repeat split; assumption. }
        rewrite Hkeep, <- Hname. left.
      * assert (Hin : name ∈ names').
        { apply IH. exists e', owner. repeat split; assumption. }
        destruct keep; [right|]; exact Hin.
Qed.

Lemma graph_resolve_plain exclude pre rest : ∀ test_list,
  Forall (λ t, String.prefix "s" t = false ∧ is_Some (int t)) pre →
  ∃ test_list',
    graph_resolve int from_id exclude (pre ++ rest) test_list =
    graph_resolve int from_id exclude rest test_list'.
Proof.
  induction pre as [|t pre IH]; intros test_list Hpre; simpl.
  - exists test_list. reflexivity.
  - apply Forall_cons in Hpre as [[Hs [n Hn]] Hpre].
    rewrite Hs, Hn. apply IH. exact Hpre.
Qed.

(** X23.  A series among the identifiers: without [--exclude] the test
    [test_id not in args.exclude] raises [TypeError]; and a series that is
    excluded is read as a run id, so that [int] raises [ValueError] when it
    refuses the text.  (The identifiers before it are run ids that [int]
    accepts.) *)
Theorem graph_series_identifier listing args pre test_id post :
  graph_tests args = pre ++ test_id :: post →
  Forall (λ t, String.prefix "s" t = false ∧ is_Some (int t)) pre →
  String.prefix "s" test_id = true →
  (graph_exclude args = None →
   graph_run int from_id listing args = inl GraphTypeError) ∧
  (∀ exclude, graph_exclude args = Some exclude →
     test_id ∈ exclude → int test_id = None →
     graph_run int from_id listing args = inl GraphValueError).
Proof.
  intros Ht Hpre Hs.
  assert (Hrun : graph_run int from_id listing args =
            match graph_resolve int from_id (graph_exclude args)
                    (pre ++ test_id :: post) [] with
            | inl e => inl e
            | inr test_list => inr (pre ++ test_id :: post, test_list)
            end).
  { unfold graph_run. rewrite Ht. destruct pre; reflexivity. }
  rewrite Hrun.
  destruct (graph_resolve_plain (graph_exclude args) pre (test_id :: post) []
              Hpre) as (tl & ->).
  split.
  - intros ->. simpl. rewrite Hs. reflexivity.
  - intros exclude -> Hin Hint. simpl. rewrite Hs.
    rewrite bool_decide_eq_true_2 by exact Hin. simpl.
    rewrite Hint. reflexivity.
Qed.

End Graph.

(** * pavilion.config: one config per directory *)

Section Configs.
Context {FS : Type} (m : Machine FS) (known : KnownDirs) (pav_working_dir : Path).

Lemma od_set_fresh {V} key (v : V) od :
  key ∉ od.*1 → od_set key v od = od ++ [(key, v)].
Proof.
  induction od as [|[k v'] od IH]; simpl; [reflexivity|].
  intros Hk. apply not_elem_of_cons in Hk as [Hne Hk].
  rewrite decide_False by congruence. rewrite (IH Hk). reflexivity.
Qed.

Lemma od_set_keys {V} key (v : V) od :
  (od_set key v od).*1 = if bool_decide (key ∈ od.*1) then od.*1
                         else od.*1 ++ [key].
Proof.
  induction od as [|[k v'] od IH]; [reflexivity|].
  cbn [od_set]. destruct (decide (k = key)) as [->|Hne];
    rewrite !fmap_cons; cbn [fst].
  - rewrite bool_decide_eq_true_2 by left. reflexivity.
  - rewrite IH. destruct (bool_decide (key ∈ od.*1)) eqn:Hin.
    + apply bool_decide_eq_true in Hin.
      rewrite bool_decide_eq_true_2 by (right; exact Hin). reflexivity.
    + apply bool_decide_eq_false in Hin.
      rewrite bool_decide_eq_false_2; [reflexivity|].
      intros H. apply elem_of_cons in H as [->|H]; [congruence | contradiction].
Qed.

Lemma od_set_NoDup {V} key (v : V) od :
  NoDup od.*1 → NoDup (od_set key v od).*1.
Proof.
  intros Hnd. rewrite od_set_keys.
  destruct (bool_decide (key ∈ od.*1)) eqn:Hin; [exact Hnd|].
  apply bool_decide_eq_false in Hin. apply NoDup_app.
  split; [exact Hnd|]. split; [|apply NoDup_singleton].
  intros x Hx Hx'. apply list_elem_of_singleton in Hx'. subst x. contradiction.
Qed.

Lemma od_set_elem {V} key (v : V) od k c :
  (k, c) ∈ od_set key v od → (k, c) = (key, v) ∨ (k, c) ∈ od.
Proof.
  induction od as [|[k' v'] od IH]; simpl.
  - intros H. apply list_elem_of_singleton in H. left. exact H.
  - destruct (decide (k' = key)) as [->|Hne]; intros H;
      apply elem_of_cons in H as [H|H].
    + left. exact H.
    + right. right. exact H.
    + right. rewrite H. left.
    + destruct (IH H) as [Heq|Hin]; [left; exact Heq | right; right; exact Hin].
Qed.

Lemma make_dirs_total paths : ∀ s,
  (∀ s p, is_Some (mkdir m s p)) →
  ∃ s', make_dirs m s paths = (s', None).
Proof.
  induction paths as [|p paths IH]; intros s Hmk; simpl.
  - exists s. reflexivity.
  - destruct (Hmk s p) as (s1 & ->). apply IH. exact Hmk.
Qed.

Lemma configs_loop_labelled lab wdir dirs : ∀ st,
  (∀ s d, d ∈ dirs →
     read_config m s (path_join m d CONFIG_NAME) = ReadOk (Some (lab d)) (wdir d)) →
  (∀ d, d ∈ dirs → lab d ≠ EmptyString) →
  NoDup (lab <$> dirs) →
  (∀ k, k ∈ (configs st).*1 → k ∉ lab <$> dirs) →
  (∀ s p, is_Some (mkdir m s p)) →
  ∃ s',
    configs_loop m known pav_working_dir dirs st =
      (mkConfigsState s' (printed st) (label_i st)
         (configs st ++ (dir_entry m pav_working_dir lab wdir <$> dirs)),
       None).
Proof.
  induction dirs as [|d dirs IH]; intros st Hread Hlab Hnd Hfresh Hmk.
  - exists (machine_state st). simpl. rewrite app_nil_r.
    destruct st; reflexivity.
  - rewrite fmap_cons in Hnd. apply NoDup_cons in Hnd as [Hd Hnd].
    simpl. unfold configs_step.
    rewrite (Hread (machine_state st) d (list_elem_of_here _ _)).
    assert (Hgiven : label_given (Some (lab d)) = true).
    { specialize (Hlab d (list_elem_of_here _ _)).
      destruct (lab d); [congruence | reflexivity]. }
    unfold default_label. rewrite Hgiven.
    assert (Hnot : lab d ∉ (configs st).*1).
    { intros Hin. apply (Hfresh _ Hin). rewrite fmap_cons. left. }
    rewrite bool_decide_eq_false_2 by exact Hnot.
    rewrite !Hgiven. cbn [orb negb].
    destruct (make_dirs_total
                [working_dir_of m pav_working_dir d (wdir d);
                 path_join m (working_dir_of m pav_working_dir d (wdir d)) "builds";
                 path_join m (working_dir_of m pav_working_dir d (wdir d)) "series";
                 path_join m (working_dir_of m pav_working_dir d (wdir d)) "test_runs";
                 path_join m (working_dir_of m pav_working_dir d (wdir d)) "users"]
                (machine_state st) Hmk) as (s1 & Hs1).
    unfold _setup_working_dir. rewrite Hs1.
    rewrite (od_set_fresh _ _ _ Hnot).
    destruct (IH (mkConfigsState s1 (printed st) (label_i st)
                    (configs st ++
                     [(lab d,
                       mkDirConfig (Some (lab d))
                         (Some (working_dir_of m pav_working_dir d (wdir d)))
                         (Some d))]))) as (s2 & E2).
    + intros s x Hx. apply Hread. right. exact Hx.
    + intros x Hx. apply Hlab. right. exact Hx.
    + exact Hnd.
    + cbn [configs]. intros k Hk. rewrite fmap_app in Hk.
      apply elem_of_app in Hk as [Hk|Hk].
      * intros Hin. apply (Hfresh k Hk). rewrite fmap_cons. right. exact Hin.
      * apply list_elem_of_singleton in Hk. subst k. exact Hd.
    + exact Hmk.
    + exists s2. rewrite E2. cbn [printed label_i configs].
      rewrite <- app_assoc. reflexivity.
Qed.

(** X24.  Config directories that each carry a label of their own: when
    every [config.yaml] loads with a non-empty label, no label occurs twice
    and every directory can be made, the validator prints nothing and
    returns one entry per directory, in the order of [config_dirs], under
    its label, with its working directory and its path. *)
Theorem configs_of_labelled_dirs s dirs lab wdir :
  (∀ s d, d ∈ dirs →
     read_config m s (path_join m d CONFIG_NAME) = ReadOk (Some (lab d)) (wdir d)) →
  (∀ d, d ∈ dirs → lab d ≠ EmptyString) →
  NoDup (lab <$> dirs) →
  (∀ s p, is_Some (mkdir m s p)) →
  ∃ s',
    _configs_validator m known s dirs pav_working_dir false =
      (mkConfigsState s' [] 1%nat (dir_entry m pav_working_dir lab wdir <$> dirs), None).
Proof.
  intros Hread Hlab Hnd Hmk. unfold _configs_validator.
  destruct (configs_loop_labelled lab wdir dirs (mkConfigsState s [] 1%nat [])
              Hread Hlab Hnd) as (s' & E); [|exact Hmk|].
  - intros k Hk. inversion Hk.
  - exists s'. exact E.
Qed.

Lemma setup_total s wd :
  (∀ s p, is_Some (mkdir m s p)) →
  ∃ s', _setup_working_dir m s wd = (s', None).
Proof. intros Hmk. apply make_dirs_total. exact Hmk. Qed.

Lemma configs_step_unlabelled wdir d st :
  read_config m (machine_state st) (path_join m d CONFIG_NAME)
    = ReadOk None (wdir d) →
  default_label known d None = None →
  (∀ s p, is_Some (mkdir m s p)) →
  (configs st = [] ∨ ∃ c, configs st = [("<not_defined>", c)]) →
  ∃ s' out,
    configs_step m known pav_working_dir st d =
      inr (mkConfigsState s' out (label_i st + 1)%nat
             [("<not_defined>",
               mkDirConfig (Some ("lbl" +:+ pretty (label_i st)))
                 (Some (working_dir_of m pav_working_dir d (wdir d)))
                 (Some d))]).
Proof.
  intros Hread Hdef Hmk Hcfg. unfold configs_step. rewrite Hread, Hdef.
  cbn [label_given negb orb].
  destruct (setup_total (machine_state st)
              (working_dir_of m pav_working_dir d (wdir d)) Hmk) as (s1 & ->).
  eexists s1, _. f_equal. f_equal.
  destruct Hcfg as [-> | (c & ->)]; reflexivity.
Qed.

Lemma configs_loop_unlabelled wdir last pre : ∀ st,
  (∀ s d, d ∈ pre ++ [last] →
     read_config m s (path_join m d CONFIG_NAME) = ReadOk None (wdir d)) →
  (∀ d, d ∈ pre ++ [last] → default_label known d None = None) →
  (∀ s p, is_Some (mkdir m s p)) →
  (configs st = [] ∨ ∃ c, configs st = [("<not_defined>", c)]) →
  ∃ s' out,
    configs_loop m known pav_working_dir (pre ++ [last]) st =
      (mkConfigsState s' out (label_i st + length pre + 1)%nat
         [("<not_defined>",
           mkDirConfig (Some ("lbl" +:+ pretty (label_i st + length pre)%nat))
             (Some (working_dir_of m pav_working_dir last (wdir last)))
             (Some last))],
       None).
Proof.
  induction pre as [|d pre IH]; intros st Hread Hdef Hmk Hcfg.
  - destruct (configs_step_unlabelled wdir last st) as (s1 & out1 & E);
      [apply Hread; left | apply Hdef; left | exact Hmk | exact Hcfg |].
    cbn [app configs_loop length]. rewrite E, !Nat.add_0_r.
    exists s1, out1. reflexivity.
  - destruct (configs_step_unlabelled wdir d st) as (s1 & out1 & E);
      [apply Hread; left | apply Hdef; left | exact Hmk | exact Hcfg |].
    cbn [app configs_loop length]. rewrite E.
    destruct (IH (mkConfigsState s1 out1 (label_i st + 1)%nat
                    [("<not_defined>",
                      mkDirConfig (Some ("lbl" +:+ pretty (label_i st)))
                        (Some (working_dir_of m pav_working_dir d (wdir d)))
                        (Some d))])) as (s2 & out2 & E2).
    + intros s x Hx. apply Hread. right. exact Hx.
    + intros x Hx. apply Hdef. right. exact Hx.
    + exact Hmk.
    + right. eexists. reflexivity.
    + exists s2, out2. rewrite E2. cbn [label_i].
      replace (label_i st + 1 + length pre + 1)%nat
        with (label_i st + S (length pre) + 1)%nat by lia.
      replace (label_i st + 1 + length pre)%nat
        with (label_i st + S (length pre))%nat by lia.
      reflexivity.
Qed.

(** X25.  Config directories without a label.  When the [config.yaml] of
    every directory carries no label, none of the directories is one of the
    three with a label by default, and every directory can be made, the
    validator returns a single entry, under the key [<not_defined>]: that of
    the last directory, whose [label] field is the last label generated.
    The entries of the directories before it are overwritten. *)
Theorem unlabelled_dirs_share_one_entry s pre last wdir :
  (∀ s d, d ∈ pre ++ [last] →
     read_config m s (path_join m d CONFIG_NAME) = ReadOk None (wdir d)) →
  (∀ d, d ∈ pre ++ [last] → default_label known d None = None) →
  (∀ s p, is_Some (mkdir m s p)) →
  ∃ s' out,
    _configs_validator m known s (pre ++ [last]) pav_working_dir false =
      (mkConfigsState s' out (length pre + 2)%nat
         [("<not_defined>",
           mkDirConfig (Some ("lbl" +:+ pretty (length pre + 1)%nat))
             (Some (working_dir_of m pav_working_dir last (wdir last)))
             (Some last))],
       None).
Proof.
  intros Hread Hdef Hmk. unfold _configs_validator.
  destruct (configs_loop_unlabelled wdir last pre (mkConfigsState s [] 1%nat [])
              Hread Hdef Hmk) as (s' & out & E); [left; reflexivity|].
  exists s', out. rewrite E. cbn [label_i].
  replace (1 + length pre + 1)%nat with (length pre + 2)%nat by lia.
  replace (1 + length pre)%nat with (length pre + 1)%nat by lia.
  reflexivity.
Qed.

Lemma configs_step_sound dirs st d st' :
  d ∈ dirs → (1 ≤ label_i st)%nat →
  entries_sound m pav_working_dir dirs st →
  configs_step m known pav_working_dir st d = inr st' →
  entries_sound m pav_working_dir dirs st' ∧ (1 ≤ label_i st')%nat.
Proof.
  intros Hd Hi [Hnd Hent]. unfold configs_step.
  destruct (read_config m (machine_state st) (path_join m d CONFIG_NAME))
    as [lbl wd0| |] eqn:Hread; [| |discriminate].
  - set (label := default_label known d lbl).
    set (relabel := (match label with
                     | Some l => bool_decide (l ∈ (configs st).*1)
                     | None => false
                     end || negb (label_given label))).
    assert (Hmono : (label_i st ≤ if relabel then label_i st + 1 else label_i st)%nat)
      by (destruct relabel; lia).
    assert (Hold : ∀ key c, (key, c) ∈ configs st →
              ∃ d s0 lbl wd0,
                d ∈ dirs ∧
                read_config m s0 (path_join m d CONFIG_NAME) = ReadOk lbl wd0 ∧
                cfg_path c = Some d ∧
                cfg_working_dir c = Some (working_dir_of m pav_working_dir d wd0) ∧
                (cfg_label c = lbl ∨
                 ∃ i, (1 ≤ i < if relabel then label_i st + 1 else label_i st)%nat
                      ∧ cfg_label c = Some ("lbl" +:+ pretty i))).
    { intros key c Hin.
      destruct (Hent key c Hin) as (d0 & s0 & l0 & w0 & H1 & H2 & H3 & H4 & H5).
      exists d0, s0, l0, w0. repeat split; try assumption.
      destruct H5 as [H5|(i & Hi' & H5)]; [left; exact H5|].
      right. exists i. split; [lia | exact H5]. }
    destruct (_setup_working_dir m (machine_state st)
                (working_dir_of m pav_working_dir d wd0)) as [s1 [failed|]].
    + intros [= <-]. cbn [configs label_i]. split; [|lia].
      split; [exact Hnd | exact Hold].
    + intros [= <-]. cbn [configs label_i]. split; [|lia].
      split; [apply od_set_NoDup, Hnd|].
      intros key c Hin. apply od_set_elem in Hin as [[= -> ->]|Hin];
        [|exact (Hold key c Hin)].
      exists d, (machine_state st), lbl, wd0. cbn.
      repeat split; try assumption.
      destruct relabel; [right | left; reflexivity].
      exists (label_i st). split; [lia | reflexivity].
  - intros [= <-]. cbn [configs label_i]. split; [|exact Hi].
    split; assumption.
Qed.

Lemma configs_loop_sound all dirs : ∀ st st' e,
  (∀ d, d ∈ dirs → d ∈ all) → (1 ≤ label_i st)%nat →
  entries_sound m pav_working_dir all st →
  configs_loop m known pav_working_dir dirs st = (st', e) →
  entries_sound m pav_working_dir all st'.
Proof.
  induction dirs as [|d dirs IH]; intros st st' e Hsub Hi Hs; simpl.
  - intros [= <- _]. exact Hs.
  - destruct (configs_step m known pav_working_dir st d) as [x|st1] eqn:E.
    + intros [= <- _]. exact Hs.
    + destruct (configs_step_sound all st d st1) as [Hs1 Hi1];
        [apply Hsub; left | exact Hi | exact Hs | exact E |].
      apply IH; [intros x Hx; apply Hsub; right; exact Hx | exact Hi1 | exact Hs1].
Qed.

(** X26.  Whatever the directories hold and however the validator ends, no
    key occurs twice among the configs, and every entry belongs to one of
    the config directories: its [path] is that directory, its working
    directory is the one worked out for that directory (absolute, or
    placed under the directory), and its label is the one loaded or one of
    the labels generated so far. *)
Theorem configs_entries_are_sound s dirs st' e :
  _configs_validator m known s dirs pav_working_dir false = (st', e) →
  entries_sound m pav_working_dir dirs st'.
Proof.
  unfold _configs_validator.
  apply (configs_loop_sound dirs dirs); [tauto | simpl; lia |].
  split; [constructor | intros key c Hin; inversion Hin].
Qed.

End Configs.

(** * The further theorems at concrete inputs *)

Lemma run_only_appends_to_ledgers_witness :
  test_runs site !! "10" = Some run10
  ∧ ∃ d' more,
      test_runs (run dec_int dec_path site
                   (mkArgs ["s7"] false false false)).1.1 !! "10" = Some d' ∧
      st_uid d' = 1000 ∧ scheduler d' = "slurm" ∧
      entries (status d') = entries (status run10) ++ more ∧
      (RUN_COMPLETE run10 = true → RUN_COMPLETE d' = true).
Proof.
  split; [reflexivity|].
  exact (run_only_appends_to_ledgers dec_int dec_path site
           (mkArgs ["s7"] false false false) "10" run10 eq_refl).
Defined.

Lemma uncancellable_runs_are_left_alone_witness :
  (test_runs site !! "11" = Some run11
   ∧ cancellable (state (current (status run11))) = false)
  ∧ test_runs (run dec_int dec_path site
                 (mkArgs ["s7"; "11"; "11"] false false false)).1.1 !! "11"
    = Some run11.
Proof.
  split; [split; reflexivity|].
  exact (uncancellable_runs_are_left_alone dec_int dec_path site
           (mkArgs ["s7"; "11"; "11"] false false false) "11" run11
           eq_refl eq_refl).
Defined.

Lemma cancelled_runs_were_cancellable_witness :
  12 ∈ cancelled_ids (run dec_int dec_path site
                        (mkArgs ["s7"] false false false)).1.2
  ∧ ∃ d, TestRun_load dec_path site 12 = Some d ∧
         (state (current (status d)) = STATES.RUNNING
          ∨ state (current (status d)) = STATES.SCHEDULED).
Proof.
  assert (H : 12 ∈ cancelled_ids (run dec_int dec_path site
                        (mkArgs ["s7"] false false false)).1.2).
  { change (12 ∈ [10; 12]). right. left. }
  split; [exact H|].
  exact (cancelled_runs_were_cancellable dec_int dec_path site
           (mkArgs ["s7"] false false false) 12 H).
Defined.

Lemma distinct_batch_is_cancelled_run_by_run_witness :
  (mapM (expansion dec_int site) ["s7"; "42"] = Some [[10; 11; 12]; [42]]
   ∧ NoDup (dec_path <$> [10; 11; 12; 42]))
  ∧ (run dec_int dec_path site (mkArgs ["s7"; "42"] false false false)).2
    = Return 0
  ∧ cancelled_jobs (run dec_int dec_path site
                      (mkArgs ["s7"; "42"] false false false)).1.1
    = [10; 12; 42].
Proof.
  assert (Hnd : NoDup (dec_path <$> concat [[10; 11; 12]; [42]])).
  { apply (bool_decide_unpack _). vm_compute. exact I. }
  split; [split; [reflexivity | exact Hnd]|].
  destruct (distinct_batch_is_cancelled_run_by_run dec_int dec_path site
              (mkArgs ["s7"; "42"] false false false) [[10; 11; 12]; [42]]
              eq_refl eq_refl Hnd eq_refl eq_refl)
    as (H0 & _ & _ & Hj & _).
  split; [exact H0 | exact Hj].
Defined.

Lemma cancel_all_leaves_only_the_uncancellable_witness :
  default_tests site (mkArgs [] true false false) = ["7"; "12"; "10"; "42"]
  ∧ (run dec_int dec_path site (mkArgs [] true false false)).2 = Return 0
  ∧ ∀ name,
      name ∈ default_tests
               (run dec_int dec_path site (mkArgs [] true false false)).1.1
               (mkArgs [] true false false) →
      ∃ d, test_runs site !! name = Some d ∧
           cancellable (state (current (status d))) = false.
Proof.
  assert (Hsel : default_tests site (mkArgs [] true false false)
                 = ["7"; "12"; "10"; "42"]) by (vm_compute; reflexivity).
  split; [exact Hsel|].
  destruct (cancel_all_leaves_only_the_uncancellable dec_int dec_path site
              false false) as [H0 Hrest].
  - intros name Hname. rewrite Hsel in Hname.
    repeat (apply elem_of_cons in Hname as [->|Hname]);
      [split; [reflexivity | eexists; split; reflexivity] ..|].
    inversion Hname.
  - intros name d Hname. rewrite Hsel in Hname.
    repeat (apply elem_of_cons in Hname as [->|Hname]);
      [intros [= <-]; eexists; reflexivity ..|].
    inversion Hname.
  - split; [exact H0|]. intros name Hname.
    destruct (Hrest name Hname) as (d & Hd & Hc & _).
    exists d. split; assumption.
Defined.

Lemma first_config_file_decides_witness :
  (candidates sample_loader None ["/cwd"; "/home/u/.pavilion"] None
     = ["/cwd/pavilion.yaml"] ++ home_config :: []
   ∧ is_file sample_loader "/cwd/pavilion.yaml" = No
   ∧ is_file sample_loader home_config = Yes)
  ∧ find_pavilion_config sample_loader None ["/cwd"; "/home/u/.pavilion"]
      None true
    = FromFile home_config home_config.
Proof.
  split; [repeat split|].
  apply (first_config_file_decides sample_loader None
           ["/cwd"; "/home/u/.pavilion"] None true
           ["/cwd/pavilion.yaml"] home_config []).
  - reflexivity.
  - repeat constructor.
  - reflexivity.
Defined.

Lemma found_config_is_first_file_witness :
  find_pavilion_config sample_loader None ["/cwd"; "/home/u/.pavilion"]
    (Some "/tmp/none.yaml") false
  = FromFile home_config home_config
  ∧ ∃ pre post,
      candidates sample_loader None ["/cwd"; "/home/u/.pavilion"]
        (Some "/tmp/none.yaml") = pre ++ home_config :: post ∧
      Forall (λ q, is_file sample_loader q = No) pre ∧
      is_file sample_loader home_config = Yes.
Proof.
  split; [reflexivity|].
  exact (proj2 (found_config_is_first_file sample_loader None
                  ["/cwd"; "/home/u/.pavilion"] (Some "/tmp/none.yaml") false
                  home_config home_config eq_refl)).
Defined.

Lemma missing_config_dir_raises_witness :
  (first_dirs sample_disk "/home/u/.pavilion" None false = inr []
   ∧ path_exists sample_disk "/missing" = No)
  ∧ ∃ out,
      config_dirs_validator sample_disk "/home/u/.pavilion" None false
        (["/etc/pav"; "/secret"] ++ "/missing" :: ["/opt/pav"])
      = (out ++ [DoesNotExist "/missing"], inl (NoSuchDirectory "/missing")).
Proof.
  split; [split; reflexivity|].
  apply (missing_config_dir_raises sample_disk "/home/u/.pavilion" None false
           ["/etc/pav"; "/secret"] "/missing" ["/opt/pav"] [] eq_refl).
  - repeat constructor; discriminate.
  - reflexivity.
Defined.

Lemma config_dirs_of_existing_values_witness :
  Forall (λ v, path_exists sample_disk v ≠ No)
    ["/etc/pav"; "/secret"; "/opt/pav"; "/etc/pav"]
  ∧ ∃ news,
      config_dirs_validator sample_disk "/home/u/.pavilion" None false
        ["/etc/pav"; "/secret"; "/opt/pav"; "/etc/pav"]
      = ([CannotAccess], inr ([] ++ news)).
Proof.
  assert (Hall : Forall (λ v, path_exists sample_disk v ≠ No)
                   ["/etc/pav"; "/secret"; "/opt/pav"; "/etc/pav"])
    by (repeat constructor; discriminate).
  split; [exact Hall|].
  destruct (config_dirs_of_existing_values sample_disk "/home/u/.pavilion"
              None false ["/etc/pav"; "/secret"; "/opt/pav"; "/etc/pav"] []
              eq_refl Hall) as (news & E & _).
  exists news. exact E.
Defined.

Lemma resolved_config_dirs_are_distinct_witness :
  config_dirs_validator sample_disk "/home/u/.pavilion" None false
    ["/etc/pav"; "/opt/pav"; "/etc/pav"]
  = ([], inr ["/etc/pav"; "/opt/pav"])
  ∧ NoDup ["/etc/pav"; "/opt/pav"].
Proof.
  split; [reflexivity|].
  apply (resolved_config_dirs_are_distinct sample_disk "/home/u/.pavilion"
           None false ["/etc/pav"; "/opt/pav"; "/etc/pav"] [] []
           ["/etc/pav"; "/opt/pav"] eq_refl (NoDup_nil_2)).
  - intros v _. reflexivity.
  - reflexivity.
Defined.

Lemma get_version_returns_witness :
  FileLines release_lines ≠ ReadFailed
  ∧ ∃ v, get_version (H := ascii_space) (FileLines release_lines) = Version v.
Proof.
  assert (Hr : FileLines release_lines ≠ ReadFailed) by discriminate.
  split; [exact Hr|].
  exact (get_version_returns (H := ascii_space) (FileLines release_lines) Hr).
Defined.

Lemma version_of_first_release_line_witness :
  Forall (λ l, String.prefix "RELEASE=" l = false) ["# Pavilion" +:+ nl]
  ∧ get_version (H := ascii_space) (FileLines release_lines) = Version "2.4".
Proof.
  assert (Hpre : Forall (λ l, String.prefix "RELEASE=" l = false)
                   ["# Pavilion" +:+ nl]) by (repeat constructor).
  split; [exact Hpre|].
  exact (version_of_first_release_line (H := ascii_space)
           ["# Pavilion" +:+ nl] (" 2.4 =stable" +:+ nl) ["RELEASE=3" +:+ nl]
           Hpre).
Defined.

Lemma version_unknown_without_release_line_witness :
  Forall (λ l, String.prefix "RELEASE=" l = false)
    ["# Pavilion" +:+ nl; "release=1" +:+ nl]
  ∧ get_version (H := ascii_space)
      (FileLines ["# Pavilion" +:+ nl; "release=1" +:+ nl])
    = Version "<unknown>".
Proof.
  assert (Hall : Forall (λ l, String.prefix "RELEASE=" l = false)
                   ["# Pavilion" +:+ nl; "release=1" +:+ nl])
    by (repeat constructor).
  split; [exact Hall|].
  exact (version_unknown_without_release_line (H := ascii_space) _ Hall).
Defined.

Lemma version_has_no_equals_sign_witness :
  get_version (H := ascii_space) (FileLines release_lines) = Version "2.4"
  ∧ has_char "=" "2.4" = false.
Proof.
  split; [reflexivity|].
  exact (version_has_no_equals_sign (H := ascii_space)
           (FileLines release_lines) "2.4" eq_refl).
Defined.

Lemma version_round_trip_witness :
  (isspace (Whitespace := ascii_space) "010" = true
   ∧ has_char "=" "2.4.1" = false
   ∧ lstrip (H := ascii_space) "2.4.1" = "2.4.1"
   ∧ rstrip (H := ascii_space) "2.4.1" = "2.4.1")
  ∧ get_version (H := ascii_space)
      (FileLines (["# Pavilion" +:+ nl]
                  ++ ("RELEASE=" ++ "2.4.1" ++ String "010" "")%string
                     :: ["RELEASE=0" +:+ nl]))
    = Version "2.4.1".
Proof.
  split; [repeat split|].
  apply (version_round_trip (H := ascii_space)); try reflexivity.
  repeat constructor.
Defined.

Lemma graph_needs_exclude_witness :
  (graph_tests (mkGraphArgs [] None None None) = []
   ∧ graph_exclude (mkGraphArgs [] None None None) = None)
  ∧ graph_run dec_int no_series sample_listing (mkGraphArgs [] None None None)
    = inl GraphTypeError.
Proof.
  split; [split; reflexivity|].
  exact (graph_needs_exclude dec_int no_series sample_listing
           (mkGraphArgs [] None None None) eq_refl eq_refl).
Defined.

Lemma graph_selection_witness :
  graph_select graph_sample_args sample_listing = inr ["1"; "3"]
  ∧ ("3" ∈ ["1"; "3"] ↔
     ∃ e owner,
       e ∈ sample_listing ∧ entry_name e = "3" ∧ entry_is_dir e = true ∧
       ("3" ∉ ["4"; "eve"]) ∧ entry_owner e = Some owner ∧
       (owner ∉ ["4"; "eve"]) ∧
       (∀ user, given (graph_user graph_sample_args) = Some user →
                substring owner user = true)).
Proof.
  split; [reflexivity|].
  exact (graph_selection graph_sample_args sample_listing ["4"; "eve"]
           ["1"; "3"] eq_refl eq_refl "3").
Defined.

Lemma graph_series_identifier_witness :
  Forall (λ t, String.prefix "s" t = false ∧ is_Some (dec_int t)) ["7"]
  ∧ graph_run dec_int no_series sample_listing
      (mkGraphArgs ["7"; "s1"] None None None)
    = inl GraphTypeError.
Proof.
  assert (Hpre : Forall (λ t, String.prefix "s" t = false ∧ is_Some (dec_int t))
                   ["7"]).
  { constructor; [|constructor]. split; [reflexivity | eexists; reflexivity]. }
  split; [exact Hpre|].
  exact (proj1 (graph_series_identifier dec_int no_series sample_listing
                  (mkGraphArgs ["7"; "s1"] None None None) ["7"] "s1" []
                  eq_refl Hpre eq_refl) eq_refl).
Defined.

Lemma configs_of_labelled_dirs_witness :
  NoDup (sample_lab <$> ["/a"; "/b"])
  ∧ ∃ s',
      _configs_validator sample_machine sample_known [] ["/a"; "/b"]
        "working_dir" false
      = (mkConfigsState s' [] 1%nat
           [("alpha",
             mkDirConfig (Some "alpha") (Some "/a/working_dir") (Some "/a"));
            ("beta",
             mkDirConfig (Some "beta") (Some "/scratch/b") (Some "/b"))],
         None).
Proof.
  assert (Hnd : NoDup (sample_lab <$> ["/a"; "/b"])).
  { apply (bool_decide_unpack _). vm_compute. exact I. }
  split; [exact Hnd|].
  apply (configs_of_labelled_dirs sample_machine sample_known "working_dir"
           [] ["/a"; "/b"] sample_lab sample_wdir).
  - intros s d Hd.
    repeat (apply elem_of_cons in Hd as [->|Hd]); [reflexivity ..|].
    inversion Hd.
  - intros d Hd.
    repeat (apply elem_of_cons in Hd as [->|Hd]); [discriminate ..|].
    inversion Hd.
  - exact Hnd.
  - intros s p. eexists. reflexivity.
Defined.

Lemma unlabelled_dirs_share_one_entry_witness :
  (default_label sample_known "/c" None = None
   ∧ default_label sample_known "/d" None = None)
  ∧ ∃ s' out,
      _configs_validator sample_machine sample_known [] (["/c"] ++ ["/d"])
        "working_dir" false
      = (mkConfigsState s' out 3%nat
           [("<not_defined>",
             mkDirConfig (Some "lbl2") (Some "/d/working_dir") (Some "/d"))],
         None).
Proof.
  split; [split; reflexivity|].
  apply (unlabelled_dirs_share_one_entry sample_machine sample_known
           "working_dir" [] ["/c"] "/d" (λ _, None)).
  - intros s d Hd.
    repeat (apply elem_of_cons in Hd as [->|Hd]); [reflexivity ..|].
    inversion Hd.
  - intros d Hd.
    repeat (apply elem_of_cons in Hd as [->|Hd]); [reflexivity ..|].
    inversion Hd.
  - intros s p. eexists. reflexivity.
Defined.

Lemma configs_entries_are_sound_witness :
  (_configs_validator sample_machine sample_known [] ["/a"; "/c"; "/a"]
     "working_dir" false).2 = None
  ∧ entries_sound sample_machine "working_dir" ["/a"; "/c"; "/a"]
      (_configs_validator sample_machine sample_known [] ["/a"; "/c"; "/a"]
         "working_dir" false).1.
Proof.
  split; [reflexivity|].
  exact (configs_entries_are_sound sample_machine sample_known "working_dir"
           [] ["/a"; "/c"; "/a"] _ _ eq_refl).
Defined.

(** Two directories with the same label: the second takes the place of the
    first under that label, and its own [label] is the generated one. *)
Example same_label_twice :
  configs (_configs_validator sample_machine sample_known [] ["/a"; "/c"; "/a"]
             "working_dir" false).1
  = [("alpha", mkDirConfig (Some "lbl2") (Some "/a/working_dir") (Some "/a"));
     ("<not_defined>",
      mkDirConfig (Some "lbl1") (Some "/c/working_dir") (Some "/c"))].
Proof. vm_compute. reflexivity. Qed.

(** A series that is excluded is read as a run id. *)
Example graph_excluded_series :
  graph_run dec_int no_series sample_listing
    (mkGraphArgs ["7"; "s1"] (Some ["s1"]) None None)
  = inl GraphValueError.
Proof. reflexivity. Qed.

(** Values that do not resolve to themselves can be listed twice. *)
Example unresolved_config_dirs_twice :
  config_dirs_validator
    (mkDisk (λ _, Yes) (λ p, "/cwd/" +:+ p)) "/home/u/.pavilion" None false
    ["etc"; "etc"]
  = ([], inr ["/cwd/etc"; "/cwd/etc"]).
Proof. reflexivity. Qed.

Lemma status_table_comes_last_witness :
  StatusTable false [(42, Some cancelled_by_user)]
    ∈ (run dec_int dec_path site (mkArgs ["42"] false true false)).1.2
  ∧ (run dec_int dec_path site (mkArgs ["42"] false true false)).2 = Return 0
  ∧ ∃ pre,
      (run dec_int dec_path site (mkArgs ["42"] false true false)).1.2
      = pre ++ [StatusTable false [(42, Some cancelled_by_user)]].
Proof.
  assert (Hin : StatusTable false [(42, Some cancelled_by_user)]
                  ∈ (run dec_int dec_path site
                       (mkArgs ["42"] false true false)).1.2).
  { change (StatusTable false [(42, Some cancelled_by_user)]
              ∈ [TestCancelled 42;
                 StatusTable false [(42, Some cancelled_by_user)]]).
    right. left. }
  split; [exact Hin|].
  destruct (status_table_comes_last dec_int dec_path site
              (mkArgs ["42"] false true false) false
              [(42, Some cancelled_by_user)] Hin)
    as (_ & _ & H0 & pre & ls & Hout & _).
  split; [exact H0|]. exists pre. exact Hout.
Defined.
